(** * Student Performance Analytics dashboard: the data pipeline of [app/app.py]

    A shallow embedding of the loading, filtering and metric code of the
    dashboard script, and the properties of its specification that were
    settled against it.

    Conventions of the embedding.
    - A pandas [DataFrame] is a header (column names with their dtype) and a
      list of rows; every row carries its index label, so that a row kept by a
      boolean mask is recognisably the same row.
    - A [float64]/[int64] value is an exact rational ([Fin q]) or the missing
      value [NaN]; rounding of binary floating point is not modelled.
    - Python exceptions are the [Raise] results of the error monad [res]. *)

From Stdlib Require Import QArith Qminmax Qreals Reals Psatz.
From Stdlib Require Import Sorting.Sorted Permutation.
From stdpp Require Import gmap strings list fin_maps sorting.

Set Default Proof Using "Type".

(** ** Exceptions *)

Inductive exn : Type :=
| KeyError (key : string)
| TypeError
| ParserError
| ClientError
| NameError.

Inductive res (A : Type) : Type :=
| Ok (a : A)
| Raise (e : exn).
Arguments Ok {A} a.
Arguments Raise {A} e.

Global Instance res_ret : MRet res := λ A a, Ok a.

Global Instance res_bind : MBind res := λ A B k m,
  match m with
  | Ok a => k a
  | Raise e => Raise e
  end.

Global Instance res_fmap : FMap res := λ A B f m,
  match m with
  | Ok a => Ok (f a)
  | Raise e => Raise e
  end.

(** ** Values, columns and frames *)

(** A numeric value of a [float64] or [int64] column. *)
Inductive num : Type :=
| Fin (q : Q)
| NaN.

(** A cell of a frame: text of an [object] column, or a number. A missing
    entry of an [object] column is the float [NaN], as [read_csv] leaves it. *)
Inductive cell : Type :=
| Str (s : string)
| Num (x : num).

Inductive dtype : Type :=
| object
| int64
| float64
| bool_
| datetime64.

Global Instance dtype_eq_dec : EqDecision dtype.
Proof. solve_decision. Defined.

Record Row : Type := mkRow { label : nat; values : list cell }.

Record DataFrame : Type := mkFrame {
  columns : list (string * dtype);
  rows : list Row
}.

Definition shape0 (df : DataFrame) : nat := length (rows df).

Definition column_names (df : DataFrame) : list string := (columns df).*1.

(** Equality as the hash table behind [isin] and [unique] sees it: numbers by
    value, and [NaN] equal to [NaN]. *)
Definition num_eqb (x y : num) : bool :=
  match x, y with
  | Fin a, Fin b => Qeq_bool a b
  | NaN, NaN => true
  | _, _ => false
  end.

Definition cell_eqb (v w : cell) : bool :=
  match v, w with
  | Str a, Str b => bool_decide (a = b)
  | Num x, Num y => num_eqb x y
  | _, _ => false
  end.

(** The same relation as a proposition. *)
Definition cell_same (v w : cell) : Prop :=
  match v, w with
  | Str a, Str b => a = b
  | Num (Fin a), Num (Fin b) => (a == b)%Q
  | Num NaN, Num NaN => True
  | _, _ => False
  end.

(** Position of a column name in the header. *)
Fixpoint col_pos (col : string) (cols : list (string * dtype)) : option nat :=
  match cols with
  | [] => None
  | (c, _) :: rest =>
      if bool_decide (c = col) then Some 0%nat
      else S <$> col_pos col rest
  end.

(** The cell of a row at a position; a row shorter than the header reads as
    missing, the way [read_csv] pads it. *)
Definition row_get (i : nat) (r : Row) : cell :=
  default (Num NaN) (values r !! i).

(** [df[col]]: the column as a positional series, [KeyError] when absent. *)
Definition getitem (df : DataFrame) (col : string) : res (list cell) :=
  match col_pos col (columns df) with
  | Some i => Ok (row_get i <$> rows df)
  | None => Raise (KeyError col)
  end.

(** [value in values] for one cell, and [Series.isin]. *)
Definition isin1 (selected : list cell) (v : cell) : bool :=
  existsb (cell_eqb v) selected.

Definition isin (s : list cell) (selected : list cell) : list bool :=
  isin1 selected <$> s.

(** [df[mask]]: the rows whose mask entry is [True], in order. *)
Fixpoint boolean_index (rs : list Row) (mask : list bool) : list Row :=
  match rs, mask with
  | r :: rs', b :: mask' =>
      if b then r :: boolean_index rs' mask' else boolean_index rs' mask'
  | _, _ => []
  end.

Definition getitem_mask (df : DataFrame) (mask : list bool) : DataFrame :=
  mkFrame (columns df) (boolean_index (rows df) mask).

(** ** Filter Engine (sidebar, lines 87-90) *)

(** The dict [filter_selections] in insertion order. *)
Definition selections : Type := list (string * list cell).

(** One turn of the loop [for col, selected_values in filter_selections.items()]. *)
Definition filter_step (filtered_data : DataFrame) (item : string * list cell)
  : res DataFrame :=
  let '(col, selected_values) := item in
  match selected_values with
  | [] => Ok filtered_data
  | _ :: _ =>
      s ← getitem filtered_data col;
      Ok (getitem_mask filtered_data (isin s selected_values))
  end.

Fixpoint filter_loop (filtered_data : DataFrame) (items : selections)
  : res DataFrame :=
  match items with
  | [] => Ok filtered_data
  | item :: rest =>
      fd ← filter_step filtered_data item;
      filter_loop fd rest
  end.

(** [filtered_data = data.copy()] followed by the loop. As a value the copy is
    the frame itself; what the copy means for aliasing is modelled in the
    store semantics further down. *)
Definition apply_filters (data : DataFrame) (filter_selections : selections)
  : res DataFrame :=
  filter_loop data filter_selections.

(** The row predicate of the specification: every column with a non-empty
    chosen set holds one of the chosen values. *)
Definition row_selected (cols : list (string * dtype)) (sel : selections)
  (r : Row) : Prop :=
  ∀ col chosen, (col, chosen) ∈ sel → chosen ≠ [] →
    ∃ i w, col_pos col cols = Some i ∧ w ∈ chosen ∧ cell_same (row_get i r) w.

(** The same predicate, computed. *)
Definition row_selectedb (cols : list (string * dtype)) (sel : selections)
  (r : Row) : bool :=
  forallb (λ item : string * list cell,
    match item.2 with
    | [] => true
    | _ :: _ =>
        match col_pos item.1 cols with
        | Some i => isin1 item.2 (row_get i r)
        | None => false
        end
    end) sel.

(** ** Filter eligibility (sidebar, lines 74-84) *)

(** [df.select_dtypes(include=...).columns.tolist()] *)
Definition select_dtypes (include : list dtype) (df : DataFrame) : list string :=
  (filter (λ c : string * dtype, c.2 ∈ include) (columns df)).*1.

(** [Series.unique()]: the distinct values in order of first appearance;
    [NaN] is one of them when the column has a missing entry. *)
Definition unique (s : list cell) : list cell :=
  fold_left (λ seen v, if isin1 seen v then seen else seen ++ [v]) s [].

Definition is_str (v : cell) : bool :=
  match v with
  | Str _ => true
  | Num _ => false
  end.

Definition cell_leb (v w : cell) : bool :=
  match v, w with
  | Str a, Str b => String.leb a b
  | Num (Fin a), Num (Fin b) => Qle_bool a b
  | _, _ => false
  end.

(** [sorted(values)]: Python orders text with text and numbers with numbers,
    and raises [TypeError] when it has to compare a [str] with a [float], which
    is what a missing entry in a text column is. *)
Definition py_sorted (l : list cell) : res (list cell) :=
  if forallb is_str l || forallb (negb ∘ is_str) l
  then Ok (merge_sort (λ v w, Is_true (cell_leb v w)) l)
  else Raise TypeError.

(** [d[k] = v] on a dict kept in insertion order. *)
Fixpoint dict_set (d : selections) (k : string) (v : list cell) : selections :=
  match d with
  | [] => [(k, v)]
  | (k', v') :: rest =>
      if bool_decide (k' = k) then (k, v) :: rest
      else (k', v') :: dict_set rest k v
  end.

(** What the user picks in the multiselect of a column, given its options. *)
Definition widget : Type := string → list cell → list cell.

(** The loop [for col in categorical_cols[:3]] over the columns still to visit. *)
Fixpoint filter_selections_loop (multiselect : widget) (data : DataFrame)
  (cols : list string) (filter_selections : selections) : res selections :=
  match cols with
  | [] => Ok filter_selections
  | col :: rest =>
      s ← getitem data col;
      if (length (unique s) <? 10)%nat then
        options ← py_sorted (unique s);
        filter_selections_loop multiselect data rest
          (dict_set filter_selections col (multiselect col options))
      else filter_selections_loop multiselect data rest filter_selections
  end.

Definition categorical_cols (data : DataFrame) : list string :=
  select_dtypes [object] data.

Definition build_filter_selections (multiselect : widget) (data : DataFrame)
  : res selections :=
  filter_selections_loop multiselect data (take 3 (categorical_cols data)) [].

(** The number of distinct values of a column, as line 79 computes it. *)
Definition distinct_count (data : DataFrame) (col : string) : option nat :=
  match getitem data col with
  | Ok s => Some (length (unique s))
  | Raise _ => None
  end.

(** A column is offered a selector when it is a key of [filter_selections]. *)
Definition offered (sel : selections) (col : string) : Prop := col ∈ sel.*1.

(** ** Derived metrics (tab 1, lines 113-126) *)

(** The numeric view of a cell that comparisons and aggregates take; text
    where a number is needed is a [TypeError]. *)
Definition as_num (v : cell) : res num :=
  match v with
  | Num x => Ok x
  | Str _ => Raise TypeError
  end.

Definition to_numeric (s : list cell) : res (list num) := mapM as_num s.

(** The entries that are not missing. *)
Definition finite (s : list num) : list Q :=
  omap (λ x, match x with Fin q => Some q | NaN => None end) s.

Definition Qsum (l : list Q) : Q := foldr Qplus 0%Q l.

Definition Qlen {A} (l : list A) : Q := inject_Z (Z.of_nat (length l)).

(** [Series.mean()]: missing entries are skipped, and a series without any
    other entry has mean [NaN]. Results are kept in lowest terms. *)
Definition mean (s : list num) : num :=
  match finite s with
  | [] => NaN
  | xs => Fin (Qred (Qsum xs / Qlen xs))
  end.

(** [Series.min()] and [Series.max()], missing entries skipped. *)
Definition series_min (s : list num) : num :=
  match finite s with
  | [] => NaN
  | x :: xs => Fin (foldr Qmin x xs)
  end.

Definition series_max (s : list num) : num :=
  match finite s with
  | [] => NaN
  | x :: xs => Fin (foldr Qmax x xs)
  end.

(** [series >= k]: a comparison with a missing entry is [False]. *)
Definition ge_scalar (k : Q) (x : num) : bool :=
  match x with
  | Fin q => Qle_bool k q
  | NaN => false
  end.

Definition ge (s : list num) (k : Q) : list bool := ge_scalar k <$> s.

(** The mean of a boolean series: the share of [True]. No entry of a boolean
    series is missing, so the denominator is its length. *)
Definition mean_bool (m : list bool) : num :=
  match m with
  | [] => NaN
  | _ :: _ => Fin (Qred (Qlen (filter (λ b : bool, b) m) / Qlen m))
  end.

Definition num_scale (x : num) (k : Q) : num :=
  match x with
  | Fin q => Fin (Qred (q * k))
  | NaN => NaN
  end.

Definition num_sub (x y : num) : num :=
  match x, y with
  | Fin a, Fin b => Fin (Qred (a - b))
  | _, _ => NaN
  end.

(** [(df['Exam_Score'] >= 60).mean() * 100] *)
Definition pass_rate (exam_score : list num) : num :=
  num_scale (mean_bool (ge exam_score 60)) 100.

Definition has_column (df : DataFrame) (col : string) : bool :=
  bool_decide (col ∈ column_names df).

(** The four metric cards of the overview; the three that read the outcome
    column are left out when the frame has no [Exam_Score]. *)
Record overview : Type := mkOverview {
  average_score : option (num * num);
  pass_rate_card : option (num * num);
  total_students : nat;
  score_range : option (num * num)
}.

Definition numeric_column (df : DataFrame) (col : string) : res (list num) :=
  s ← getitem df col; to_numeric s.

Definition tab1_metrics (data filtered_data : DataFrame) : res overview :=
  if has_column filtered_data "Exam_Score" then
    fs ← numeric_column filtered_data "Exam_Score";
    ds ← numeric_column data "Exam_Score";
    mret (mkOverview
            (Some (mean fs, num_sub (mean fs) (mean ds)))
            (Some (pass_rate fs, num_sub (pass_rate fs) (pass_rate ds)))
            (shape0 filtered_data)
            (Some (series_min fs, series_max fs)))
  else
    mret (mkOverview None None (shape0 filtered_data) None).

(** The reading of the specification: a row passes when its score is a number
    at or above the threshold. *)
Definition passes (k : Q) (x : num) : Prop :=
  match x with
  | Fin q => (k <= q)%Q
  | NaN => False
  end.

Global Instance passes_dec (k : Q) (x : num) : Decision (passes k x).
Proof.
  destruct x as [q|]; simpl.
  - destruct (Qlt_le_dec q k) as [H|H]; [right|left]; [|done].
    by apply Qlt_not_le.
  - right. tauto.
Defined.

Definition count_passing (k : Q) (s : list num) : nat :=
  length (filter (passes k) s).

(** A series in which every missing score is replaced by the score [f]. *)
Definition fill_missing (f : Q) (s : list num) : list num :=
  (λ x, match x with Fin q => Fin q | NaN => Fin f end) <$> s.

(** ** Performance bands (tab 2, lines 189-201) *)

(** [categorize_performance(score)]. Every comparison with a missing score is
    [False], which leaves the last branch; comparing text with a number
    raises. *)
Definition categorize_performance (score : cell) : res string :=
  x ← as_num score;
  mret (if ge_scalar 90 x then "Excellent (90-100)"
        else if ge_scalar 80 x then "Very Good (80-89)"
        else if ge_scalar 70 x then "Good (70-79)"
        else if ge_scalar 60 x then "Satisfactory (60-69)"
        else "Needs Improvement (<60)").

(** ** Correlation (tab 3, lines 265-276, and tab 4, lines 408-410) *)

(** The rows on which both series have an entry. *)
Fixpoint complete_pairs (xs ys : list num) : list (Q * Q) :=
  match xs, ys with
  | Fin x :: xs', Fin y :: ys' => (x, y) :: complete_pairs xs' ys'
  | _ :: xs', _ :: ys' => complete_pairs xs' ys'
  | _, _ => []
  end.

Definition Qmean (l : list Q) : Q := (Qsum l / Qlen l)%Q.

(** Sum of the squared deviations from the mean, and of the products of the
    deviations of two paired series. *)
Definition sq_deviation (l : list Q) : Q :=
  Qsum ((λ x, (x - Qmean l) * (x - Qmean l))%Q <$> l).

Definition co_deviation (ps : list (Q * Q)) : Q :=
  Qsum ((λ p : Q * Q, (p.1 - Qmean ps.*1) * (p.2 - Qmean ps.*2))%Q <$> ps).

(** A correlation coefficient: a real number, or undefined ([NaN]). *)
Inductive coef : Type :=
| Undefined
| Coef (r : R).

(** Pearson's coefficient as [Series.corr] and [DataFrame.corr] compute it,
    over the complete pairs: the co-deviation divided by the square root of
    the product of the squared deviations, and [NaN] when that divisor is
    zero (no pair, one pair, or a series without variation). *)
Definition pearson (xs ys : list num) : coef :=
  let ps := complete_pairs xs ys in
  let sxx := sq_deviation ps.*1 in
  let syy := sq_deviation ps.*2 in
  if Qeq_bool (sxx * syy) 0 then Undefined
  else Coef (Q2R (co_deviation ps) / sqrt (Q2R (sxx * syy))).

(** [[col for col in select_dtypes(['int64', 'float64']).columns
      if col != 'Exam_Score']] *)
Definition numerical_cols (df : DataFrame) : list string :=
  filter (λ col, col ≠ "Exam_Score") (select_dtypes [int64; float64] df).

(** The list [correlations] of tab 3, in column order. *)
Definition correlations (filtered_data : DataFrame) : res (list (string * coef)) :=
  score ← numeric_column filtered_data "Exam_Score";
  mapM (λ col, s ← numeric_column filtered_data col;
               mret (col, pearson s score))
       (numerical_cols filtered_data).

(** [DataFrame.corr()] of a list of numeric columns. *)
Definition corr (cols : list (list num)) : list (list coef) :=
  (λ a, pearson a <$> cols) <$> cols.

(** [filtered_data[numerical_cols + ['Exam_Score']].corr()] *)
Definition corr_matrix (filtered_data : DataFrame) : res (list (list coef)) :=
  cols ← mapM (numeric_column filtered_data)
              (numerical_cols filtered_data ++ ["Exam_Score"]);
  mret (corr cols).


(** ** Sorting a table by a column ([sort_values]) *)

(** The sorting algorithm behind [sort_values(kind=...)]: it orders rows by a
    numeric key, ascending. The script passes no [kind], which selects
    'quicksort'. *)
Definition sort_kind : Type := ∀ A : Type, (A → Q) → list A → list A.

(** What every sorting algorithm of the library guarantees: the rows come back
    rearranged, in non-decreasing key order. *)
Record sorts (kind : sort_kind) : Prop := mkSorts {
  sorts_perm : ∀ A (key : A → Q) l, kind A key l ≡ₚ l;
  sorts_sorted : ∀ A (key : A → Q) l,
    StronglySorted (λ a b, (key a <= key b)%Q) (kind A key l)
}.

Global Instance Qeq_decision (x y : Q) : Decision (x == y)%Q := Qeq_dec x y.

(** What only the stable algorithms ('mergesort', 'stable') guarantee: rows
    with equal keys keep their relative order. *)
Definition stable (kind : sort_kind) : Prop :=
  ∀ A (key : A → Q) (l : list A) (q : Q),
    filter (λ a, (key a == q)%Q) (kind A key l) = filter (λ a, (key a == q)%Q) l.

Definition is_nan (x : num) : bool :=
  match x with
  | NaN => true
  | Fin _ => false
  end.

(** The rows that have a key, each with its key, in their order. *)
Definition keyed {A} (by_ : A → num) (df : list A) : list (Q * A) :=
  omap (λ a, match by_ a with Fin q => Some (q, a) | NaN => None end) df.

(** A keyed row carries the key its row has. *)
Definition linked {A} (by_ : A → num) (p : Q * A) : Prop := by_ p.2 = Fin p.1.

(** The sorted part of [sort_values]: ascending as the algorithm leaves it,
    descending by reversing the rows before and after an ascending sort. *)
Definition sorted_part {A} (kind : sort_kind) (ascending : bool)
  (non_nans : list (Q * A)) : list (Q * A) :=
  if ascending then kind _ fst non_nans
  else reverse (kind _ fst (reverse non_nans)).

(** [df.sort_values(by, ascending=...)] with the default [na_position='last']:
    the rows with a key are sorted and the rows without a key follow in their
    original order. *)
Definition sort_values {A} (kind : sort_kind) (by_ : A → num) (ascending : bool)
  (df : list A) : list A :=
  (sorted_part kind ascending (keyed by_ df)).*2
  ++ filter (λ a, is_nan (by_ a)) df.

(** Order and ties of keys, as propositions. *)
Definition num_le (x y : num) : Prop :=
  match x, y with
  | Fin a, Fin b => (a <= b)%Q
  | _, _ => False
  end.

Definition key_is {A} (by_ : A → num) (q : Q) (a : A) : Prop :=
  match by_ a with
  | Fin q' => (q' == q)%Q
  | NaN => False
  end.

Global Instance key_is_dec {A} (by_ : A → num) (q : Q) (a : A) :
  Decision (key_is by_ q a).
Proof. unfold key_is. destruct (by_ a); apply _. Defined.

(** ** Averages per category (tab 2, lines 226-228) *)

Definition missing (v : cell) : bool :=
  match v with
  | Num NaN => true
  | _ => false
  end.

(** The group keys of [groupby]: the values present, in sorted order. *)
Definition group_keys (cats : list cell) : list cell :=
  merge_sort (λ v w, Is_true (cell_leb v w))
             (filter (λ v, ¬ missing v) (unique cats)).

(** The scores of the rows of one group. *)
Definition group_scores (cats : list cell) (scores : list num) (k : cell)
  : list num :=
  (filter (λ p : cell * num, cell_eqb p.1 k) (zip cats scores)).*2.

(** A row of [summary_df]: category, average score, count of scores. *)
Definition summary_row : Type := cell * num * nat.

(** [groupby(selected_cat)['Exam_Score'].agg(['mean', 'count'])], then
    [sort_values('Average Score', ascending=False)]. *)
Definition summary_df (kind : sort_kind) (filtered_data : DataFrame)
  (selected_cat : string) : res (list summary_row) :=
  cats ← getitem filtered_data selected_cat;
  scores ← numeric_column filtered_data "Exam_Score";
  mret (sort_values kind (λ r : summary_row, r.1.2) false
          ((λ k, let g := group_scores cats scores k in
                 (k, mean g, length (finite g)))
             <$> group_keys cats)).

(** ** Insight Selector (tab 3, lines 278-279 and 358-360) *)

(** A row of [corr_df]: a factor and its coefficient, a float. *)
Definition corr_row : Type := string * num.

Definition positive (x : num) : bool :=
  match x with
  | Fin q => negb (Qle_bool q 0)
  | NaN => false
  end.

Definition negative (x : num) : bool :=
  match x with
  | Fin q => negb (Qle_bool 0 q)
  | NaN => false
  end.

(** [corr_df = corr_df.sort_values('Correlation', ascending=False)] *)
Definition corr_df (kind : sort_kind) (correlations : list corr_row)
  : list corr_row :=
  sort_values kind snd false correlations.

(** [corr_df[corr_df['Correlation'] > 0].head(3)] *)
Definition top_positive (kind : sort_kind) (correlations : list corr_row)
  : list corr_row :=
  take 3 (filter (λ e : corr_row, positive e.2) (corr_df kind correlations)).

(** [corr_df[corr_df['Correlation'] < 0].sort_values('Correlation').head(3)] *)
Definition top_negative (kind : sort_kind) (correlations : list corr_row)
  : list corr_row :=
  take 3 (sort_values kind snd true
            (filter (λ e : corr_row, negative e.2) (corr_df kind correlations))).

(** Two sorting algorithms that meet the library's guarantee: insertion sort,
    which puts a row before the first later row with a key not below its own
    and so keeps equal rows in their order, and the same sort fed the rows in
    reverse, which turns equal rows around. *)
Fixpoint insert_sorted {A} (key : A → Q) (a : A) (l : list A) : list A :=
  match l with
  | [] => [a]
  | b :: rest =>
      if Qle_bool (key a) (key b) then a :: b :: rest
      else b :: insert_sorted key a rest
  end.

Definition insertion_sort : sort_kind :=
  λ A key l, foldr (insert_sorted key) [] l.


(** ** Source Loader (lines 26-53) and the guard of the page (lines 67-103) *)

Definition S3_BUCKET : string := "student-performance-app-files".
Definition S3_FILE_KEY : string := "StudentPerformanceFactors.csv".

(** What lies outside the script: the CSV parser, and the object store read as
    [s3.get_object(Bucket=..., Key=...)['Body'].read().decode('utf-8')]. *)
Record world : Type := mkWorld {
  read_csv : string → res DataFrame;
  get_object : string → string → res string
}.

(** What the script writes on the page with [st.success], [st.error],
    [st.warning] and [st.info]. *)
Inductive message : Type :=
| success (text : string)
| error (text : string) (e : exn)
| warning (text : string)
| info (text : string).

(** Case 2 of [load_data]: the [try] around the fetch and the parse. *)
Definition load_from_s3 (w : world) : option DataFrame * list message :=
  match body ← get_object w S3_BUCKET S3_FILE_KEY; read_csv w body with
  | Ok data => (Some data, [success "Successfully loaded data from S3!"])
  | Raise e => (None, [error "Error loading data from S3: " e])
  end.

(** [load_data(uploaded_file)]: the frame or [None], and the messages shown. *)
Definition load_data (w : world) (uploaded_file : option string)
  : option DataFrame * list message :=
  match uploaded_file with
  | Some content =>
      match read_csv w content with
      | Ok data => (Some data, [success "Successfully loaded uploaded file!"])
      | Raise e =>
          let '(data, shown) := load_from_s3 w in
          (data, error "Error loading uploaded file: " e :: shown)
      end
  | None => load_from_s3 w
  end.

(** The sidebar: [data] and [filtered_data], both [None] without data. *)
Definition sidebar (w : world) (multiselect : widget)
  (uploaded_file : option string)
  : res (option (DataFrame * DataFrame) * list message) :=
  let '(data, shown) := load_data w uploaded_file in
  match data with
  | Some data =>
      filter_selections ← build_filter_selections multiselect data;
      filtered_data ← apply_filters data filter_selections;
      mret (Some (data, filtered_data), shown)
  | None => mret (None, shown)
  end.

(** The main area: the tabs when [filtered_data is not None], and the
    placeholder otherwise. *)
Inductive view : Type :=
| Tabs (metrics : overview)
| Placeholder.

Definition page (w : world) (multiselect : widget)
  (uploaded_file : option string) : res (view * list message) :=
  '(frames, shown) ← sidebar w multiselect uploaded_file;
  match frames with
  | Some (data, filtered_data) =>
      metrics ← tab1_metrics data filtered_data;
      mret (Tabs metrics, shown)
  | None =>
      mret (Placeholder,
            shown ++
            [warning "Please upload a data file or ensure S3 access to begin analysis.";
             info "Once data is loaded, you'll see a comprehensive analysis of student performance factors."])
  end.

(** ** Frames as objects: copies, new frames and assignment in place *)

(** [df[col] = series]: an existing column of that name is overwritten where
    it stands, otherwise the column is appended; the labels built by [apply]
    make an [object] column. Rows are brought to the width of the header
    first. *)
Definition set_cell (width i : nat) (v : cell) (r : Row) : Row :=
  mkRow (label r) (<[i := v]> (resize width (Num NaN) (values r))).

Definition setitem (df : DataFrame) (col : string) (s : list cell) : DataFrame :=
  let width := length (columns df) in
  match col_pos col (columns df) with
  | Some i =>
      mkFrame (<[i := (col, object)]> (columns df))
              (zip_with (set_cell width i) s (rows df))
  | None =>
      mkFrame (columns df ++ [(col, object)])
              (zip_with (set_cell (S width) width) s (rows df))
  end.

(** The frames alive in the session, by the address the variables [data] and
    [filtered_data] hold. *)
Definition loc : Type := nat.
Abbreviation heap := (gmap loc DataFrame).

(** A statement: it reads and changes the heap, or raises. *)
Definition prog (A : Type) : Type := heap → res (A * heap).

Global Instance prog_ret : MRet prog := λ A a h, Ok (a, h).

Global Instance prog_bind : MBind prog := λ A B k m h,
  match m h with
  | Ok (a, h') => k a h'
  | Raise e => Raise e
  end.

Definition lift {A} (m : res A) : prog A := λ h,
  match m with
  | Ok a => Ok (a, h)
  | Raise e => Raise e
  end.

(** A new frame object, at an address not in use. *)
Definition new (df : DataFrame) : prog loc := λ h,
  let l := fresh (dom h) in Ok (l, <[l := df]> h).

Definition deref (l : loc) : prog DataFrame := λ h,
  match h !! l with
  | Some df => Ok (df, h)
  | None => Raise NameError
  end.

(** Mutation of the frame at an address. *)
Definition assign (l : loc) (df : DataFrame) : prog unit := λ h,
  Ok ((), <[l := df]> h).

(** The loop of lines 88-90 on objects: [filtered_data[mask]] is a new frame
    and the variable is rebound to it. *)
Fixpoint filter_loop_obj (filtered_data : loc) (items : selections) : prog loc :=
  match items with
  | [] => mret filtered_data
  | (col, selected_values) :: rest =>
      match selected_values with
      | [] => filter_loop_obj filtered_data rest
      | _ :: _ =>
          fd ← deref filtered_data;
          s ← lift (getitem fd col);
          filtered_data' ← new (getitem_mask fd (isin s selected_values));
          filter_loop_obj filtered_data' rest
      end
  end.

(** Lines 87-90: [filtered_data = data.copy()], then the loop. *)
Definition apply_filters_obj (data : loc) (filter_selections : selections)
  : prog loc :=
  d ← deref data;
  filtered_data ← new d;
  filter_loop_obj filtered_data filter_selections.

(** Lines 187-201: the assignment of the derived column, in place. *)
Definition add_performance_category (filtered_data : loc) : prog unit :=
  fd ← deref filtered_data;
  if has_column fd "Exam_Score" then
    s ← lift (getitem fd "Exam_Score");
    labels ← lift (mapM categorize_performance s);
    assign filtered_data (setitem fd "Performance_Category" (Str <$> labels))
  else mret ().

(** The sidebar filter followed by tab 2, on the frame at [data]. *)
Definition filter_then_categorize (data : loc) (filter_selections : selections)
  : prog loc :=
  filtered_data ← apply_filters_obj data filter_selections;
  _ ← add_performance_category filtered_data;
  mret filtered_data.

(** ** Sample data *)

Definition int_cell (z : Z) : cell := Num (Fin (inject_Z z)).

(** A small frame in the shape of the student data: two text columns, one
    numerical factor and the outcome column. *)
Definition students : DataFrame :=
  mkFrame
    [("Gender", object); ("School_Type", object);
     ("Hours_Studied", int64); ("Exam_Score", int64)]
    [ mkRow 0 [Str "Female"; Str "Public"; int_cell 10; int_cell 50];
      mkRow 1 [Str "Male"; Str "Private"; int_cell 20; int_cell 70];
      mkRow 2 [Str "Female"; Str "Public"; int_cell 30; int_cell 90] ].

(** Four text columns with one distinct value each. *)
Definition four_text_columns : DataFrame :=
  mkFrame
    [("Gender", object); ("School_Type", object);
     ("Internet_Access", object); ("Learning_Disabilities", object)]
    [ mkRow 0 [Str "Female"; Str "Public"; Str "Yes"; Str "No"] ].

(** A user who leaves every selector empty. *)
Definition nothing_chosen : widget := λ _ _, [].

(** The ten outcome values of the pass-rate example. *)
Definition ten_scores : DataFrame :=
  mkFrame [("Exam_Score", int64)]
    (imap (λ i z, mkRow i [int_cell z]) [50; 55; 60; 65; 70; 75; 80; 85; 90; 95]%Z).


(** A correlation table in which two factors have the same coefficient. *)
Definition tied_table : list corr_row :=
  [("Hours_Studied", Fin (1 # 2)); ("Attendance", Fin (1 # 2));
   ("Sleep_Hours", Fin (-1 # 4)); ("Tutoring_Sessions", NaN)].

(** A world in which the upload does not parse and the bucket cannot be
    reached, and one in which the bucket holds the student data. *)
Definition offline : world :=
  mkWorld (λ _, Raise ParserError) (λ _ _, Raise ClientError).

Definition bucket_only : world :=
  mkWorld (λ content, if bool_decide (content = "csv") then Ok students
                      else Raise ParserError)
          (λ _ _, Ok "csv").


(** A text column with a missing entry. *)
Definition gender_with_gap : DataFrame :=
  mkFrame [("Gender", object); ("Exam_Score", int64)]
    [ mkRow 0 [Str "Female"; int_cell 50];
      mkRow 1 [Num NaN; int_cell 70] ].

(** ** Filter summary (sidebar, lines 93-94) *)

(** What the sidebar does after filtering: nothing when no row was dropped,
    otherwise the info line with the two row counts and their ratio as a
    percentage; the division of the ratio raises [ZeroDivisionError] on a raw
    frame without rows. *)
Inductive summary : Type :=
| NoSummary
| Summary (kept total : nat) (percent : Q)
| ZeroDivisionError.

Definition filter_summary (data filtered_data : DataFrame) : summary :=
  if (shape0 filtered_data =? shape0 data)%nat then NoSummary
  else if (shape0 data =? 0)%nat then ZeroDivisionError
  else Summary (shape0 filtered_data) (shape0 data)
         (Qred (inject_Z (Z.of_nat (shape0 filtered_data))
                / inject_Z (Z.of_nat (shape0 data)) * 100)).

(** ** Data quality (tab 1, lines 136-147) *)

(** [df.isnull().sum()]: the number of missing entries of each column. *)
Definition missing_values (df : DataFrame) : list (string * nat) :=
  imap (λ i (c : string * dtype),
          (c.1, length (filter (λ v, missing v) (row_get i <$> rows df))))
       (columns df).

(** [(missing_values / len(df)) * 100]: on a frame without rows the division
    is 0/0, which pandas evaluates to [NaN]. *)
Definition missing_percent (df : DataFrame) (count : nat) : num :=
  match rows df with
  | [] => NaN
  | _ :: _ =>
      Fin (Qred (inject_Z (Z.of_nat count) / inject_Z (Z.of_nat (shape0 df)) * 100))
  end.

(** [missing_df[missing_df['Missing Values'] > 0]] *)
Definition missing_df (df : DataFrame) : list (string * nat * num) :=
  filter (λ e : string * nat * num, (0 < e.1.2)%nat)
         ((λ e : string * nat, (e.1, e.2, missing_percent df e.2))
            <$> missing_values df).

(** What the panel shows: the table, or the message that nothing is missing. *)
Inductive quality_view : Type :=
| MissingTable (table : list (string * nat * num))
| NoneMissing (shown : message).

Definition data_quality (df : DataFrame) : quality_view :=
  match missing_df df with
  | [] => NoneMissing (success "No missing values found in the dataset!")
  | table => MissingTable table
  end.

(** An outcome column that was read as text. *)
Definition text_scores : DataFrame :=
  mkFrame [("Gender", object); ("Exam_Score", object)]
    [ mkRow 0 [Str "Female"; Str "67"];
      mkRow 1 [Str "Male"; Str "absent"] ].

(** ** Category counts of the pie chart (tab 2, lines 202-208) *)

(** The number of entries of a series equal to a value. *)
Definition count_value (s : list cell) (v : cell) : nat :=
  length (filter (λ w, cell_eqb w v) s).

(** [Series.value_counts().reset_index()]: the distinct values present, each
    with the number of its occurrences, the most frequent first. *)
Definition value_counts (kind : sort_kind) (s : list cell) : list (cell * nat) :=
  sort_values kind (λ r : cell * nat, Fin (inject_Z (Z.of_nat r.2))) false
    ((λ v, (v, count_value s v)) <$> filter (λ v, ¬ missing v) (unique s)).

(** The list [order] of line 205. *)
Definition order : list string :=
  ["Excellent (90-100)"; "Very Good (80-89)"; "Good (70-79)";
   "Satisfactory (60-69)"; "Needs Improvement (<60)"].

Fixpoint position (a : string) (categories : list string) : option nat :=
  match categories with
  | [] => None
  | c :: rest =>
      if bool_decide (c = a) then Some 0%nat
      else S <$> position a rest
  end.

(** The code a value gets in [pd.Categorical(values, categories=...,
    ordered=True)]: its position among the categories, and missing for a
    value that is none of them. *)
Definition category_code (categories : list string) (v : cell) : num :=
  match v with
  | Str a =>
      match position a categories with
      | Some i => Fin (inject_Z (Z.of_nat i))
      | None => NaN
      end
  | Num _ => NaN
  end.

(** [category_counts.sort_values('Category')] on the value counts of the
    derived column. *)
Definition category_counts (kind : sort_kind) (performance_category : list cell)
  : list (cell * nat) :=
  sort_values kind (λ r : cell * nat, category_code order r.1) true
    (value_counts kind performance_category).

(** ** Relationship Explorer (tab 4, lines 384-422) *)

(** The name [numerical_cols] is bound in tab 3 only, under
    [if 'Exam_Score' in filtered_data.columns] (lines 263-266). *)
Definition tab3_numerical_cols (filtered_data : DataFrame) : option (list string) :=
  if has_column filtered_data "Exam_Score" then Some (numerical_cols filtered_data)
  else None.

(** What tab 4 arrives at: whether the multi-factor chart is drawn, the
    correlation matrix when it is computed, and the notes shown instead. *)
Record relationships : Type := mkRelationships {
  multi_factor_chart : bool;
  matrix : option (list (list coef));
  notes : list message
}.

(** Tab 4 reads [numerical_cols] without binding it: a name that tab 3 did not
    bind raises [NameError] at line 384. *)
Definition tab4 (filtered_data : DataFrame) (categorical_cols : list string)
  : res relationships :=
  match tab3_numerical_cols filtered_data with
  | None => Raise NameError
  | Some numerical_cols =>
      let multi :=
        (1 <? length numerical_cols)%nat && (0 <? length categorical_cols)%nat in
      let note1 :=
        if multi then []
        else [info "Not enough numerical or categorical variables for multi-factor analysis."] in
      if (1 <? length numerical_cols)%nat then
        corr_matrix ← corr_matrix filtered_data;
        mret (mkRelationships multi (Some corr_matrix) note1)
      else
        mret (mkRelationships multi None
                (note1 ++ [info "Not enough numerical variables for correlation analysis."]))
  end.

(** ** Column information (tab 1, lines 157-158) *)

(** [Series.nunique()]: the number of distinct values, a missing entry not
    counted. *)
Definition nunique (s : list cell) : nat :=
  length (filter (λ v, ¬ missing v) (unique s)).

(** [s.value_counts().index[0] if not s.value_counts().empty else None] *)
Definition most_common (kind : sort_kind) (s : list cell) : option cell :=
  match value_counts kind s with
  | [] => None
  | (v, _) :: _ => Some v
  end.

(** * Properties *)

(** ** Filter Engine *)

Lemma cell_eqb_same (v w : cell) : cell_eqb v w = true ↔ cell_same v w.
Proof.
  destruct v as [a|[a|]], w as [b|[b|]]; simpl;
    rewrite ?bool_decide_eq_true, ?Qeq_bool_iff; intuition congruence.
Qed.

Lemma isin1_spec (selected : list cell) (v : cell) :
  isin1 selected v = true ↔ ∃ w, w ∈ selected ∧ cell_same v w.
Proof.
  unfold isin1. rewrite existsb_exists. split.
  - intros (w & Hin & Heq). exists w. split.
    + by apply list_elem_of_In.
    + by apply cell_eqb_same.
  - intros (w & Hin & Heq). exists w. split.
    + by apply list_elem_of_In.
    + by apply cell_eqb_same.
Qed.

Lemma boolean_index_fmap (f : Row → bool) (rs : list Row) :
  boolean_index rs (f <$> rs) = filter (λ r, f r) rs.
Proof.
  induction rs as [|r rs IH]; [done|].
  rewrite fmap_cons, filter_cons. cbn [boolean_index]. rewrite IH.
  by destruct (f r).
Qed.

Lemma col_pos_is_Some (col : string) (cols : list (string * dtype)) :
  col ∈ cols.*1 → is_Some (col_pos col cols).
Proof.
  induction cols as [|[c d] cols IH]; simpl.
  - by intros ?%elem_of_nil.
  - intros Hin. case_bool_decide; [by eexists|].
    apply elem_of_cons in Hin as [-> |Hin]; [done|].
    destruct (IH Hin) as [i ->]. by eexists.
Qed.

Lemma row_selectedb_spec cols (sel : selections) (r : Row) :
  row_selectedb cols sel r = true ↔ row_selected cols sel r.
Proof.
  unfold row_selectedb, row_selected. rewrite forallb_forall. split.
  - intros H col chosen Hin Hne.
    apply list_elem_of_In in Hin. specialize (H _ Hin). simpl in H.
    destruct chosen as [|c0 chosen]; [done|].
    destruct (col_pos col cols) as [i|]; [|done].
    apply isin1_spec in H as (w & Hw & Hs). by exists i, w.
  - intros H [col chosen] Hin. apply list_elem_of_In in Hin. simpl.
    destruct chosen as [|c0 chosen]; [done|].
    destruct (H col (c0 :: chosen) Hin) as (i & w & -> & Hw & Hs); [done|].
    apply isin1_spec. by exists w.
Qed.

Lemma filter_loop_rows (cols : list (string * dtype)) (sel : selections) :
  (∀ col chosen, (col, chosen) ∈ sel → col ∈ cols.*1) →
  ∀ rs, filter_loop (mkFrame cols rs) sel
        = Ok (mkFrame cols (filter (λ r, row_selectedb cols sel r) rs)).
Proof.
  induction sel as [|[col chosen] sel IH]; intros Hkeys rs.
  - simpl. f_equal. f_equal. induction rs as [|r rs IHrs]; [done|].
    rewrite filter_cons. simpl. by rewrite <- IHrs.
  - assert (Hrest : ∀ c ch, (c, ch) ∈ sel → c ∈ cols.*1).
    { intros c ch Hin. eapply Hkeys. by right. }
    specialize (IH Hrest).
    destruct (col_pos_is_Some col cols) as [i Hi].
    { eapply Hkeys. by left. }
    simpl. destruct chosen as [|c0 chosen].
    + simpl. rewrite IH. do 2 f_equal.
    + unfold getitem. simpl. rewrite Hi. simpl.
      unfold getitem_mask. simpl. unfold isin.
      rewrite <- list_fmap_compose.
      rewrite (boolean_index_fmap (isin1 (c0 :: chosen) ∘ row_get i)).
      rewrite IH. do 2 f_equal.
      rewrite list_filter_filter. apply list_filter_iff.
      intros r. rewrite andb_True. unfold compose. simpl. tauto.
Qed.

(** C1. The Filter Engine keeps a row iff every column with a non-empty chosen
    set holds one of the chosen values (a conjunction over the columns); the
    kept rows are the raw rows themselves, in their order, so there are at most
    as many; and with every chosen set empty the result is the raw frame. *)
Theorem filter_engine_keeps_selected_rows (data : DataFrame) (sel : selections) :
  (∀ col chosen, (col, chosen) ∈ sel → col ∈ column_names data) →
  ∃ filtered_data,
    apply_filters data sel = Ok filtered_data ∧
    columns filtered_data = columns data ∧
    (∀ r, r ∈ rows filtered_data
          ↔ r ∈ rows data ∧ row_selected (columns data) sel r) ∧
    rows filtered_data `sublist_of` rows data ∧
    shape0 filtered_data ≤ shape0 data ∧
    ((∀ col chosen, (col, chosen) ∈ sel → chosen = []) → filtered_data = data).
Proof.
  intros Hkeys. destruct data as [cols rs]. simpl in *.
  eexists. split; [by apply filter_loop_rows|]. simpl.
  split; [done|]. split; [|split; [|split]].
  - intros r. rewrite list_elem_of_filter, <- row_selectedb_spec.
    rewrite Is_true_true. tauto.
  - apply sublist_filter.
  - unfold shape0. simpl. apply length_filter.
  - intros Hempty. f_equal.
    induction rs as [|r rs IH]; [done|].
    rewrite filter_cons. rewrite decide_True; [by rewrite IH|].
    apply Is_true_true, row_selectedb_spec.
    intros col chosen Hin Hne. by destruct (Hne (Hempty _ _ Hin)).
Qed.

Lemma filter_engine_keeps_selected_rows_witness :
  ∃ filtered_data,
    apply_filters students [("Gender", [Str "Female"]); ("School_Type", [])]
      = Ok filtered_data ∧
    columns filtered_data = columns students ∧
    (∀ r, r ∈ rows filtered_data
          ↔ r ∈ rows students ∧
            row_selected (columns students)
              [("Gender", [Str "Female"]); ("School_Type", [])] r) ∧
    rows filtered_data `sublist_of` rows students ∧
    shape0 filtered_data ≤ shape0 students ∧
    ((∀ col chosen,
        (col, chosen) ∈ [("Gender", [Str "Female"]); ("School_Type", [])] →
        chosen = []) → filtered_data = students).
Proof.
  apply (filter_engine_keeps_selected_rows students).
  intros col chosen Hin. unfold column_names. simpl.
  repeat (apply elem_of_cons in Hin as [Hin|Hin];
          [inversion Hin; subst; set_solver|]).
  by apply elem_of_nil in Hin.
Defined.

(** ** Filter eligibility *)

Lemma dict_set_keys (d : selections) (k : string) (v : list cell) (c : string) :
  c ∈ (dict_set d k v).*1 ↔ c ∈ d.*1 ∨ c = k.
Proof.
  induction d as [|[k' v'] d IH]; simpl.
  - set_solver.
  - case_bool_decide; simpl; set_solver.
Qed.

Lemma unique_acc_subset (s seen : list cell) (v : cell) :
  v ∈ fold_left (λ seen v, if isin1 seen v then seen else seen ++ [v]) s seen →
  v ∈ seen ∨ v ∈ s.
Proof.
  revert seen. induction s as [|x s IH]; intros seen; simpl.
  - by left.
  - intros H. apply IH in H as [H|H]; [|right; by right].
    destruct (isin1 seen x); [by left|].
    apply elem_of_app in H as [H|H]; [by left|].
    right. apply list_elem_of_singleton in H. subst. by left.
Qed.

Lemma unique_subset (s : list cell) (v : cell) : v ∈ unique s → v ∈ s.
Proof.
  intros H. apply unique_acc_subset in H as [H|H]; [|done].
  by apply elem_of_nil in H.
Qed.

Lemma py_sorted_text (l : list cell) :
  Forall (λ v, is_str v = true) l → ∃ l', py_sorted l = Ok l'.
Proof.
  intros H. unfold py_sorted.
  assert (forallb is_str l = true) as ->; [|simpl; by eexists].
  apply forallb_forall. intros v Hv.
  rewrite Forall_forall in H. apply H. by apply list_elem_of_In.
Qed.

Lemma getitem_own_column (data : DataFrame) (col : string) :
  col ∈ column_names data → ∃ s, getitem data col = Ok s.
Proof.
  intros Hin. unfold getitem.
  destruct (col_pos_is_Some col (columns data) Hin) as [i ->]. by eexists.
Qed.

Lemma select_dtypes_names (include : list dtype) (data : DataFrame) (col : string) :
  col ∈ select_dtypes include data → col ∈ column_names data.
Proof.
  unfold select_dtypes, column_names. rewrite !list_elem_of_fmap.
  intros (c & -> & Hc). exists c. split; [done|].
  by apply list_elem_of_filter in Hc as [_ ?].
Qed.

(** The loop, run over columns of the frame whose entries can be sorted,
    ends, and its keys are the old keys and the visited columns that have
    fewer than 10 distinct values. *)
Lemma filter_selections_loop_keys (multiselect : widget) (data : DataFrame)
  (cols : list string) :
  (∀ col, col ∈ cols → col ∈ column_names data) →
  (∀ col s, col ∈ cols → getitem data col = Ok s →
            Forall (λ v, is_str v = true) s) →
  ∀ acc, ∃ sel,
    filter_selections_loop multiselect data cols acc = Ok sel ∧
    ∀ c, offered sel c ↔
         offered acc c ∨
         (c ∈ cols ∧ ∃ n, distinct_count data c = Some n ∧ (n < 10)%nat).
Proof.
  unfold offered, distinct_count.
  induction cols as [|col cols IH]; intros Hcols Htext acc.
  - exists acc. split; [done|]. intros c. split; [by left|].
    intros [?|[H _]]; [done|]. by apply elem_of_nil in H.
  - destruct (getitem_own_column data col) as [s Hs]; [apply Hcols; by left|].
    assert (Hcols' : ∀ c, c ∈ cols → c ∈ column_names data).
    { intros c Hc. apply Hcols. by right. }
    assert (Htext' : ∀ c s', c ∈ cols → getitem data c = Ok s' →
                             Forall (λ v, is_str v = true) s').
    { intros c s' Hc. apply Htext. by right. }
    simpl. rewrite Hs. simpl.
    destruct (Nat.ltb_spec (length (unique s)) 10) as [Hlt|Hge].
    + destruct (py_sorted_text (unique s)) as [options Ho].
      { apply Forall_forall. intros v Hv%unique_subset.
        specialize (Htext col s (list_elem_of_here _ _) Hs).
        rewrite Forall_forall in Htext. by apply Htext. }
      rewrite Ho. simpl.
      destruct (IH Hcols' Htext'
                  (dict_set acc col (multiselect col options))) as (sel & -> & Hk).
      exists sel. split; [done|]. intros c. rewrite Hk, dict_set_keys.
      split.
      * intros [[?| ->]|(Hc & n & Hn)]; [by left| |].
        -- right. split; [by left|]. exists (length (unique s)).
           by rewrite Hs.
        -- right. split; [by right|]. by exists n.
      * intros [?|(Hc & n & Hn)]; [by left; left|].
        apply elem_of_cons in Hc as [-> |Hc]; [by left; right|].
        right. split; [done|]. by exists n.
    + destruct (IH Hcols' Htext' acc) as (sel & -> & Hk).
      exists sel. split; [done|]. intros c. rewrite Hk. split.
      * intros [?|(Hc & n & Hn)]; [by left|].
        right. split; [by right|]. by exists n.
      * intros [?|(Hc & n & Hn & Hlt)]; [by left|].
        apply elem_of_cons in Hc as [-> |Hc].
        -- rewrite Hs in Hn. inversion Hn; subst. lia.
        -- right. split; [done|]. by exists n.
Qed.




(** ** Metrics *)

Example ten_scores_overview :
  (fd ← apply_filters ten_scores []; tab1_metrics ten_scores fd)
  = Ok (mkOverview (Some (Fin (145 # 2), Fin 0)) (Some (Fin 80, Fin 0)) 10
          (Some (Fin 50, Fin 95))).
Proof. vm_compute. reflexivity. Qed.

Lemma ge_scalar_true (k q : Q) : ge_scalar k (Fin q) = true ↔ (k <= q)%Q.
Proof. apply Qle_bool_iff. Qed.

Lemma ge_scalar_false (k q : Q) : ge_scalar k (Fin q) = false ↔ (q < k)%Q.
Proof.
  rewrite <- not_true_iff_false, ge_scalar_true. split.
  - apply Qnot_le_lt.
  - intros H1 H2. lra.
Qed.

Ltac band_cases :=
  repeat match goal with
  | |- context [ge_scalar ?k (Fin ?q)] =>
      let E := fresh "E" in
      destruct (ge_scalar k (Fin q)) eqn:E;
      [apply ge_scalar_true in E | apply ge_scalar_false in E]
  end.

Lemma ge_scalar_passes (k : Q) (x : num) : ge_scalar k x = true ↔ passes k x.
Proof. destruct x as [q|]; simpl; [apply Qle_bool_iff|done]. Qed.

Lemma count_true_ge (k : Q) (s : list num) :
  length (filter (λ b : bool, b) (ge s k)) = count_passing k s.
Proof.
  unfold count_passing, ge. induction s as [|x s IH]; [done|].
  rewrite fmap_cons, !filter_cons.
  destruct (ge_scalar k x) eqn:E.
  - rewrite decide_True by done.
    rewrite decide_True by by apply ge_scalar_passes.
    simpl. by rewrite IH.
  - rewrite decide_False by (simpl; tauto).
    rewrite decide_False; [done|].
    rewrite <- ge_scalar_passes. congruence.
Qed.

Lemma pass_rate_value (s : list num) :
  s ≠ [] →
  ∃ q, pass_rate s = Fin q ∧
       (q == inject_Z (Z.of_nat (count_passing 60 s))
             / inject_Z (Z.of_nat (length s)) * 100)%Q.
Proof.
  intros Hne. unfold pass_rate, mean_bool.
  destruct (ge s 60) as [|b m] eqn:E.
  { destruct s; [done|discriminate E]. }
  rewrite <- E. simpl. eexists. split; [reflexivity|].
  rewrite !Qred_correct. unfold Qlen.
  rewrite count_true_ge. unfold ge. by rewrite length_fmap.
Qed.

(** C6. The pass rate is the share of rows whose score is at or above the
    fixed threshold 60, as a percentage; for the ten scores 50, 55, ..., 95
    and no filter it is 80. *)
Theorem pass_rate_is_share_at_or_above_60 :
  (∀ s : list num, s ≠ [] →
     ∃ q, pass_rate s = Fin q ∧
          (q == inject_Z (Z.of_nat (count_passing 60 s))
                / inject_Z (Z.of_nat (length s)) * 100)%Q) ∧
  pass_rate_card <$> (fd ← apply_filters ten_scores []; tab1_metrics ten_scores fd)
  = Ok (Some (Fin 80, Fin 0)).
Proof.
  split; [apply pass_rate_value|]. vm_compute. reflexivity.
Qed.

Lemma pass_rate_is_share_at_or_above_60_witness :
  ∃ q, pass_rate [Fin 50; Fin 60; Fin 95; NaN] = Fin q ∧
       (q == inject_Z (Z.of_nat (count_passing 60 [Fin 50; Fin 60; Fin 95; NaN]))
             / inject_Z (Z.of_nat (length [Fin 50; Fin 60; Fin 95; NaN])) * 100)%Q.
Proof.
  apply (proj1 pass_rate_is_share_at_or_above_60 [Fin 50; Fin 60; Fin 95; NaN]).
  discriminate.
Defined.

Lemma ge_fill_missing (f : Q) (s : list num) :
  (f < 60)%Q → ge (fill_missing f s) 60 = ge s 60.
Proof.
  intros Hf. unfold ge, fill_missing. rewrite <- list_fmap_compose.
  apply list_fmap_ext. intros _ [q|] _; simpl; [done|].
  apply not_true_iff_false. rewrite Qle_bool_iff. lra.
Qed.

(** C10. A row with a missing score is counted among the rows and never among
    the passing ones, so the pass rate is what it would be had every missing
    score been a failing score. *)
Theorem missing_score_counts_as_failing (s : list num) :
  (∃ q, pass_rate (NaN :: s) = Fin q ∧
        (q == inject_Z (Z.of_nat (count_passing 60 s))
              / inject_Z (Z.of_nat (S (length s))) * 100)%Q) ∧
  (∀ f : Q, (f < 60)%Q → pass_rate (fill_missing f s) = pass_rate s).
Proof.
  split.
  - destruct (pass_rate_value (NaN :: s)) as (q & Hq & Hv); [done|].
    exists q. split; [done|]. rewrite Hv.
    unfold count_passing. rewrite filter_cons.
    rewrite decide_False; [done|]. simpl. tauto.
  - intros f Hf. unfold pass_rate. by rewrite ge_fill_missing.
Qed.

Lemma missing_score_counts_as_failing_witness :
  pass_rate (fill_missing 40 [Fin 50; Fin 60; Fin 95; NaN])
  = pass_rate [Fin 50; Fin 60; Fin 95; NaN].
Proof.
  apply (proj2 (missing_score_counts_as_failing [Fin 50; Fin 60; Fin 95; NaN]) 40%Q).
  lra.
Defined.

(** ** Performance bands *)

Lemma categorize_performance_num (x : num) :
  categorize_performance (Num x)
  = Ok (if ge_scalar 90 x then "Excellent (90-100)"
        else if ge_scalar 80 x then "Very Good (80-89)"
        else if ge_scalar 70 x then "Good (70-79)"
        else if ge_scalar 60 x then "Satisfactory (60-69)"
        else "Needs Improvement (<60)").
Proof. reflexivity. Qed.

(** C4. [categorize_performance] bands every score by fixed thresholds read
    top-down: >= 90, 80 to below 90, 70 to below 80, 60 to below 70, below 60;
    each score gets one of the five labels, and the boundary scores 59, 60, 69,
    70, 79, 80, 89, 90 and 100 fall in the listed bands. *)
Theorem categorize_performance_bands :
  (∀ q : Q,
     ((90 <= q)%Q →
        categorize_performance (Num (Fin q)) = Ok "Excellent (90-100)") ∧
     ((80 <= q < 90)%Q →
        categorize_performance (Num (Fin q)) = Ok "Very Good (80-89)") ∧
     ((70 <= q < 80)%Q →
        categorize_performance (Num (Fin q)) = Ok "Good (70-79)") ∧
     ((60 <= q < 70)%Q →
        categorize_performance (Num (Fin q)) = Ok "Satisfactory (60-69)") ∧
     ((q < 60)%Q →
        categorize_performance (Num (Fin q)) = Ok "Needs Improvement (<60)")) ∧
  (∀ x : num, ∃ band,
     categorize_performance (Num x) = Ok band ∧
     band ∈ ["Excellent (90-100)"; "Very Good (80-89)"; "Good (70-79)";
             "Satisfactory (60-69)"; "Needs Improvement (<60)"]) ∧
  mapM categorize_performance
    (int_cell <$> [59; 60; 69; 70; 79; 80; 89; 90; 100]%Z)
  = Ok ["Needs Improvement (<60)"; "Satisfactory (60-69)";
        "Satisfactory (60-69)"; "Good (70-79)"; "Good (70-79)";
        "Very Good (80-89)"; "Very Good (80-89)"; "Excellent (90-100)";
        "Excellent (90-100)"].
Proof.
  split; [|split].
  - intros q. rewrite categorize_performance_num.
    repeat split; intros H; band_cases; solve [reflexivity | lra].
  - intros [q|]; rewrite categorize_performance_num.
    + band_cases; eexists; (split; [reflexivity|]); set_solver.
    + eexists. split; [reflexivity|]. set_solver.
  - reflexivity.
Qed.

Lemma categorize_performance_bands_witness :
  categorize_performance (Num (Fin 85)) = Ok "Very Good (80-89)".
Proof.
  apply (proj1 categorize_performance_bands 85%Q). lra.
Defined.

(** ** Correlation *)






Lemma Qsquare_nonneg (a : Q) : (0 <= a * a)%Q.
Proof.
  destruct (Qlt_le_dec a 0) as [H|H].
  - assert (a * a == (- a) * (- a))%Q as -> by ring.
    apply Qmult_le_0_compat; lra.
  - by apply Qmult_le_0_compat.
Qed.

Lemma Qsum_squares_nonneg (m : Q) (l : list Q) :
  (0 <= Qsum ((λ x, (x - m) * (x - m)) <$> l))%Q.
Proof.
  induction l as [|x l IH]; [simpl; lra|].
  rewrite fmap_cons. unfold Qsum in *. cbn [foldr].
  set (t := foldr Qplus 0%Q _) in *.
  pose proof (Qsquare_nonneg (x - m)). lra.
Qed.

Lemma sq_deviation_nonneg (l : list Q) : (0 <= sq_deviation l)%Q.
Proof. apply Qsum_squares_nonneg. Qed.






(** ** Sorting a table *)

Lemma StronglySorted_reverse {A} (R : relation A) (l : list A) :
  StronglySorted R l → StronglySorted (flip R) (reverse l).
Proof.
  induction 1 as [|x l Hl IH Hx]; [constructor|].
  rewrite reverse_cons. apply StronglySorted_app_2; [|done|repeat constructor].
  intros a b Ha Hb. apply list_elem_of_singleton in Hb. subst b.
  rewrite elem_of_reverse in Ha. rewrite Forall_forall in Hx.
  unfold flip. by apply Hx.
Qed.

Lemma StronglySorted_filter {A} (R : relation A) (P : A → Prop)
  `{!∀ x, Decision (P x)} (l : list A) :
  StronglySorted R l → StronglySorted R (filter P l).
Proof.
  induction 1 as [|x l Hl IH Hx]; [constructor|].
  rewrite filter_cons. case_decide; [|done].
  constructor; [done|].
  rewrite Forall_forall in Hx |- *.
  intros y [_ Hy]%list_elem_of_filter. by apply Hx.
Qed.

Lemma filter_all {A} (P : A → Prop) `{!∀ x, Decision (P x)} (l : list A) :
  Forall P l → filter P l = l.
Proof.
  induction 1 as [|x l Hx Hl IH]; [done|].
  rewrite filter_cons, decide_True by done. by rewrite IH.
Qed.

Lemma filter_none {A} (P : A → Prop) `{!∀ x, Decision (P x)} (l : list A) :
  Forall (λ x, ¬ P x) l → filter P l = [].
Proof.
  induction 1 as [|x l Hx Hl IH]; [done|].
  by rewrite filter_cons, decide_False.
Qed.


Section sort_values.
Context {A : Type} (by_ : A → num).

Lemma keyed_linked (df : list A) : Forall (linked by_) (keyed by_ df).
Proof.
  unfold keyed. induction df as [|a df IH]; [constructor|].
  simpl. destruct (by_ a) as [q|] eqn:E; [|done].
  constructor; [done|apply IH].
Qed.

Lemma keyed_rows (df : list A) :
  (keyed by_ df).*2 = filter (λ a, ¬ is_nan (by_ a)) df.
Proof.
  unfold keyed. induction df as [|a df IH]; [done|].
  rewrite filter_cons. cbn [omap list_omap].
  destruct (by_ a) as [q|] eqn:E.
  - rewrite decide_True by (cbv; tauto). rewrite fmap_cons. by rewrite <- IH.
  - rewrite decide_False by (cbv; tauto). done.
Qed.


Lemma linked_rows_sorted (R : relation Q) (S : relation A) (l : list (Q * A)) :
  (∀ a b x y, by_ a = Fin x → by_ b = Fin y → R x y → S a b) →
  Forall (linked by_) l →
  StronglySorted (λ p1 p2, R p1.1 p2.1) l →
  StronglySorted S l.*2.
Proof.
  intros HRS Hl Hs. induction Hs as [|p l Hs IH Hp]; [constructor|].
  apply Forall_cons in Hl as [Hp1 Hl]. rewrite fmap_cons.
  constructor; [by apply IH|].
  rewrite Forall_fmap. rewrite Forall_forall in Hp, Hl |- *.
  intros p2 Hin. simpl. apply (HRS _ _ p.1 p2.1); [done| |by apply Hp].
  by apply Hl.
Qed.

Context (kind : sort_kind) (Hkind : sorts kind).

Lemma sorted_part_perm (ascending : bool) (l : list (Q * A)) :
  sorted_part kind ascending l ≡ₚ l.
Proof using Hkind.
  unfold sorted_part. destruct ascending.
  - apply (sorts_perm _ Hkind).
  - rewrite reverse_Permutation, (sorts_perm _ Hkind).
    apply reverse_Permutation.
Qed.

Lemma sorted_part_sorted (ascending : bool) (l : list (Q * A)) :
  StronglySorted
    (λ p1 p2, if ascending then (p1.1 <= p2.1)%Q else (p2.1 <= p1.1)%Q)
    (sorted_part kind ascending l).
Proof using Hkind.
  unfold sorted_part. destruct ascending.
  - apply (sorts_sorted _ Hkind).
  - apply (StronglySorted_reverse (λ p1 p2 : Q * A, (p1.1 <= p2.1)%Q)).
    apply (sorts_sorted _ Hkind).
Qed.

Lemma sort_values_perm (ascending : bool) (df : list A) :
  sort_values kind by_ ascending df ≡ₚ df.
Proof using Hkind.
  unfold sort_values. rewrite sorted_part_perm, keyed_rows.
  rewrite (Permutation_app_comm _ _).
  rewrite <- (filter_app_complement (λ a, is_nan (by_ a)) df) at 3.
  done.
Qed.

(** The rows picked by a test that no row without a key passes come out of
    [sort_values] in key order. *)
Lemma sort_values_filter_sorted (P : A → Prop) `{!∀ x, Decision (P x)}
  (ascending : bool) (df : list A) :
  (∀ a, P a → by_ a ≠ NaN) →
  StronglySorted
    (λ a b, if ascending then num_le (by_ a) (by_ b)
            else num_le (by_ b) (by_ a))
    (filter P (sort_values kind by_ ascending df)).
Proof using Hkind.
  intros HP. unfold sort_values. rewrite filter_app.
  rewrite (filter_none P (filter _ df)).
  2:{ apply Forall_forall. intros a [Ha _]%list_elem_of_filter HPa.
      apply (HP a HPa). by destruct (by_ a). }
  rewrite app_nil_r. apply StronglySorted_filter.
  assert (Hl : Forall (linked by_) (sorted_part kind ascending (keyed by_ df))).
  { rewrite sorted_part_perm. apply keyed_linked. }
  pose proof (sorted_part_sorted ascending (keyed by_ df)) as Hs.
  destruct ascending.
  - apply (linked_rows_sorted Qle); [|done..].
    by intros a b x y -> ->.
  - apply (linked_rows_sorted (flip Qle)); [|done..].
    by intros a b x y -> ->.
Qed.

End sort_values.

(** *** The two insertion sorts meet the guarantee *)

Section insertion.
Context {A : Type} (key : A → Q).

Lemma insert_sorted_perm (a : A) (l : list A) :
  insert_sorted key a l ≡ₚ a :: l.
Proof.
  induction l as [|b l IH]; [done|]. simpl.
  destruct (Qle_bool (key a) (key b)); [done|].
  rewrite IH. apply Permutation_swap.
Qed.

Lemma insert_sorted_sorted (a : A) (l : list A) :
  StronglySorted (λ x y, (key x <= key y)%Q) l →
  StronglySorted (λ x y, (key x <= key y)%Q) (insert_sorted key a l).
Proof.
  induction 1 as [|b l Hl IH Hb]; simpl; [repeat constructor|].
  destruct (Qle_bool (key a) (key b)) eqn:E.
  - apply Qle_bool_iff in E.
    constructor; [by constructor|]. constructor; [done|].
    eapply Forall_impl; [exact Hb|]. simpl. intros c Hc. lra.
  - assert (key b < key a)%Q as Hlt.
    { apply Qnot_le_lt. rewrite <- Qle_bool_iff. congruence. }
    constructor; [done|]. rewrite insert_sorted_perm.
    constructor; [lra|done].
Qed.

Lemma insert_sorted_filter (q : Q) (a : A) (l : list A) :
  filter (λ x, (key x == q)%Q) (insert_sorted key a l)
  = filter (λ x, (key x == q)%Q) (a :: l).
Proof.
  induction l as [|b l IH]; [done|]. cbn [insert_sorted].
  destruct (Qle_bool (key a) (key b)) eqn:E; [done|].
  assert (key b < key a)%Q as Hlt.
  { apply Qnot_le_lt. rewrite <- Qle_bool_iff. congruence. }
  rewrite (filter_cons _ b), IH, !filter_cons.
  destruct (decide (key a == q)%Q) as [Ha|Ha]; [|done].
  destruct (decide (key b == q)%Q) as [Hb|Hb]; [|done].
  exfalso. rewrite <- Ha in Hb. lra.
Qed.
End insertion.

Lemma insertion_sort_sorts : sorts insertion_sort.
Proof.
  split; intros A key l; unfold insertion_sort.
  - induction l as [|a l IH]; [done|]. simpl.
    by rewrite insert_sorted_perm, IH.
  - induction l as [|a l IH]; [constructor|]. simpl.
    by apply insert_sorted_sorted.
Qed.

Lemma insertion_sort_stable : stable insertion_sort.
Proof.
  intros A key l q. unfold insertion_sort.
  induction l as [|a l IH]; [done|]. simpl.
  rewrite insert_sorted_filter, !filter_cons. by rewrite IH.
Qed.


(** ** Insight Selector *)

Lemma positive_has_key (e : corr_row) : positive e.2 → e.2 ≠ NaN.
Proof. by destruct e as [c [q|]]. Qed.

Lemma negative_has_key (e : corr_row) : negative e.2 → e.2 ≠ NaN.
Proof. by destruct e as [c [q|]]. Qed.



Example top_factors_insertion_sort :
  top_positive insertion_sort tied_table
  = [("Hours_Studied", Fin (1 # 2)); ("Attendance", Fin (1 # 2))] ∧
  top_negative insertion_sort tied_table = [("Sleep_Hours", Fin (-1 # 4))].
Proof. split; vm_compute; reflexivity. Qed.


(** ** Source Loader *)

Example load_data_falls_back :
  load_data bucket_only (Some "not a table")
  = (Some students,
     [error "Error loading uploaded file: " ParserError;
      success "Successfully loaded data from S3!"]).
Proof. reflexivity. Qed.

(** C7. [load_data] tries the upload first; an upload that does not parse is
    reported and the remote source is used instead; without an upload the
    remote source is used directly; a failure of the remote fetch or parse
    leaves no dataset, and then the page shows the placeholder and no
    analysis. *)
Theorem load_data_upload_then_remote (w : world) (multiselect : widget) :
  (∀ content data, read_csv w content = Ok data →
     load_data w (Some content)
     = (Some data, [success "Successfully loaded uploaded file!"])) ∧
  (∀ content e, read_csv w content = Raise e →
     load_data w (Some content)
     = ((load_data w None).1,
        error "Error loading uploaded file: " e :: (load_data w None).2)) ∧
  (∀ data, (body ← get_object w S3_BUCKET S3_FILE_KEY; read_csv w body) = Ok data →
     load_data w None = (Some data, [success "Successfully loaded data from S3!"])) ∧
  (∀ e, (body ← get_object w S3_BUCKET S3_FILE_KEY; read_csv w body) = Raise e →
     load_data w None = (None, [error "Error loading data from S3: " e])) ∧
  (∀ uploaded_file, (load_data w uploaded_file).1 = None →
     ∃ shown, page w multiselect uploaded_file = Ok (Placeholder, shown)).
Proof.
  split_and!.
  - intros content data H. unfold load_data. by rewrite H.
  - intros content e H. unfold load_data. rewrite H.
    by destruct (load_from_s3 w).
  - intros data H. unfold load_data, load_from_s3. by rewrite H.
  - intros e H. unfold load_data, load_from_s3. by rewrite H.
  - intros uploaded_file H. unfold page, sidebar.
    destruct (load_data w uploaded_file) as [[data|] shown]; [done|].
    by eexists.
Qed.

Lemma load_data_upload_then_remote_witness :
  ∃ shown, page offline nothing_chosen (Some "not a table")
           = Ok (Placeholder, shown).
Proof.
  apply (proj2 (proj2 (proj2 (proj2
           (load_data_upload_then_remote offline nothing_chosen))))).
  reflexivity.
Defined.

(** ** The derived column *)

Lemma row_get_set_cell (width i j : nat) (v : cell) (r : Row) :
  j ≠ i → (j < width)%nat → row_get j (set_cell width i v r) = row_get j r.
Proof.
  intros Hne Hlt. unfold row_get, set_cell. simpl.
  rewrite list_lookup_insert_ne by done.
  destruct (decide (j < length (values r))%nat) as [Hj|Hj].
  - by rewrite lookup_resize.
  - rewrite lookup_resize_new by lia.
    by rewrite (lookup_ge_None_2 (values r) j) by lia.
Qed.

Lemma row_get_set_cell_eq (width i : nat) (v : cell) (r : Row) :
  (i < width)%nat → row_get i (set_cell width i v r) = v.
Proof.
  intros Hlt. unfold row_get, set_cell. simpl.
  rewrite list_lookup_insert_eq; [done|]. by rewrite length_resize.
Qed.

Lemma set_cell_column_other (width i j : nat) (s : list cell) (rs : list Row) :
  length s = length rs → j ≠ i → (j < width)%nat →
  row_get j <$> zip_with (set_cell width i) s rs = row_get j <$> rs.
Proof.
  intros Hlen Hne Hlt. revert s Hlen.
  induction rs as [|r rs IH]; intros [|v s] Hlen; try done.
  simpl. rewrite row_get_set_cell by done. f_equal. apply IH.
  simpl in Hlen. lia.
Qed.

Lemma set_cell_column_new (width i : nat) (s : list cell) (rs : list Row) :
  length s = length rs → (i < width)%nat →
  row_get i <$> zip_with (set_cell width i) s rs = s.
Proof.
  intros Hlen Hlt. revert s Hlen.
  induction rs as [|r rs IH]; intros [|v s] Hlen; try done.
  simpl. rewrite row_get_set_cell_eq by done. f_equal. apply IH.
  simpl in Hlen. lia.
Qed.

Lemma set_cell_labels (width i : nat) (s : list cell) (rs : list Row) :
  length s = length rs →
  label <$> zip_with (set_cell width i) s rs = label <$> rs.
Proof.
  revert s. induction rs as [|r rs IH]; intros [|v s] Hlen; try done.
  simpl. f_equal. apply IH. simpl in Hlen. lia.
Qed.

Lemma col_pos_lookup (c : string) (cols : list (string * dtype)) (j : nat) :
  col_pos c cols = Some j → ∃ d, cols !! j = Some (c, d).
Proof.
  revert j. induction cols as [|[c0 d0] cols IH]; intros j; simpl; [done|].
  case_bool_decide as Hc.
  - intros [= <-]. subst. by exists d0.
  - destruct (col_pos c cols) as [j'|]; [|done].
    intros [= <-]. by apply IH.
Qed.

Lemma col_pos_elem_of (c : string) (cols : list (string * dtype)) (j : nat) :
  col_pos c cols = Some j → c ∈ cols.*1.
Proof.
  intros [d Hd]%col_pos_lookup. apply list_elem_of_fmap.
  exists (c, d). split; [done|]. by eapply list_elem_of_lookup_2.
Qed.

Lemma col_pos_None (c : string) (cols : list (string * dtype)) :
  col_pos c cols = None → c ∉ cols.*1.
Proof.
  intros Hn Hin. destruct (col_pos_is_Some c cols Hin) as [i Hi]. congruence.
Qed.

Lemma col_pos_insert (c col : string) (d : dtype)
  (cols : list (string * dtype)) (i j : nat) :
  col_pos c cols = Some j → c ≠ col → col_pos col cols = Some i →
  col_pos c (<[i := (col, d)]> cols) = Some j.
Proof.
  revert i j. induction cols as [|[c0 d0] cols IH]; intros i j; simpl; [done|].
  intros Hc Hne Hcol.
  destruct (bool_decide (c0 = col)) eqn:E0.
  - apply bool_decide_eq_true in E0. subst c0.
    injection Hcol as <-. simpl.
    by rewrite bool_decide_false in Hc |- * by done.
  - destruct (col_pos col cols) as [i'|]; [|done].
    injection Hcol as <-. simpl.
    destruct (bool_decide (c0 = c)) eqn:E1; [done|].
    destruct (col_pos c cols) as [j'|] eqn:Ej; [|done].
    injection Hc as <-. by rewrite (IH i' j').
Qed.

Lemma col_pos_app (c : string) (cols extra : list (string * dtype)) (j : nat) :
  col_pos c cols = Some j → col_pos c (cols ++ extra) = Some j.
Proof.
  revert j. induction cols as [|[c0 d0] cols IH]; intros j; simpl; [done|].
  case_bool_decide; [done|].
  destruct (col_pos c cols) as [j'|]; [|done].
  intros [= <-]. by rewrite (IH j').
Qed.

Lemma col_pos_app_new (col : string) (d : dtype) (cols : list (string * dtype)) :
  col_pos col cols = None →
  col_pos col (cols ++ [(col, d)]) = Some (length cols).
Proof.
  induction cols as [|[c0 d0] cols IH]; simpl.
  - by rewrite bool_decide_true.
  - case_bool_decide; [done|].
    destruct (col_pos col cols); [done|]. intros _. by rewrite IH.
Qed.

Lemma col_pos_insert_eq (col : string) (d : dtype)
  (cols : list (string * dtype)) (i : nat) :
  col_pos col cols = Some i → col_pos col (<[i := (col, d)]> cols) = Some i.
Proof.
  revert i. induction cols as [|[c0 d0] cols IH]; intros i; simpl; [done|].
  case_bool_decide.
  - intros [= <-]. simpl. by rewrite bool_decide_true.
  - destruct (col_pos col cols) as [i'|]; [|done].
    intros [= <-]. simpl. rewrite bool_decide_false by done.
    by rewrite (IH i').
Qed.

Lemma header_insert (col : string) (d : dtype)
  (cols : list (string * dtype)) (i : nat) :
  col_pos col cols = Some i →
  filter (λ c : string * dtype, c.1 ≠ col) (<[i := (col, d)]> cols)
  = filter (λ c : string * dtype, c.1 ≠ col) cols.
Proof.
  revert i. induction cols as [|[c0 d0] cols IH]; intros i; simpl; [done|].
  case_bool_decide as Hc.
  - intros [= <-]. subst c0. simpl. rewrite !filter_cons. simpl.
    by rewrite !decide_False by tauto.
  - destruct (col_pos col cols) as [i'|]; [|done].
    intros [= <-]. simpl. rewrite !filter_cons. simpl.
    by rewrite (IH i').
Qed.

(** What the assignment of a column does to a frame: the row labels and the
    other columns, header and entries, stay, and the column holds the series. *)
Lemma setitem_frame (df : DataFrame) (col : string) (s : list cell) :
  length s = length (rows df) →
  label <$> rows (setitem df col s) = label <$> rows df ∧
  filter (λ c : string * dtype, c.1 ≠ col) (columns (setitem df col s))
  = filter (λ c : string * dtype, c.1 ≠ col) (columns df) ∧
  (∀ c, c ∈ column_names df → c ≠ col →
        getitem (setitem df col s) c = getitem df c) ∧
  getitem (setitem df col s) col = Ok s.
Proof.
  intros Hlen. unfold setitem.
  destruct (col_pos col (columns df)) as [i|] eqn:Ei; simpl.
  - assert (i < length (columns df))%nat as Hi.
    { destruct (col_pos_lookup _ _ _ Ei) as [d Hd].
      by eapply lookup_lt_Some. }
    split_and!.
    + by apply set_cell_labels.
    + by apply header_insert.
    + intros c Hc Hne. unfold getitem. simpl.
      destruct (col_pos_is_Some c _ Hc) as [j Hj].
      rewrite (col_pos_insert _ _ _ _ _ _ Hj Hne Ei), Hj.
      f_equal. apply set_cell_column_other; [done| |].
      * intros ->. destruct (col_pos_lookup _ _ _ Ei) as [d1 Hd1].
        destruct (col_pos_lookup _ _ _ Hj) as [d2 Hd2]. congruence.
      * destruct (col_pos_lookup _ _ _ Hj) as [d2 Hd2].
        by eapply lookup_lt_Some.
    + unfold getitem. simpl. rewrite (col_pos_insert_eq _ _ _ _ Ei).
      f_equal. by apply set_cell_column_new.
  - split_and!.
    + by apply set_cell_labels.
    + rewrite filter_app, filter_cons. simpl.
      rewrite decide_False by tauto. by rewrite filter_nil, app_nil_r.
    + intros c Hc Hne. unfold getitem. simpl.
      destruct (col_pos_is_Some c _ Hc) as [j Hj].
      rewrite (col_pos_app _ _ _ _ Hj), Hj.
      destruct (col_pos_lookup _ _ _ Hj) as [d2 Hd2].
      apply lookup_lt_Some in Hd2.
      f_equal. apply set_cell_column_other; [done|lia|lia].
    + unfold getitem. simpl. rewrite (col_pos_app_new _ _ _ Ei).
      f_equal. apply set_cell_column_new; [done|lia].
Qed.

Lemma mapM_res_length {A B} (f : A → res B) (l : list A) (k : list B) :
  mapM f l = Ok k → length k = length l.
Proof.
  revert k. induction l as [|x l IH]; intros k; simpl.
  - by intros [= <-].
  - destruct (f x) as [y|]; [|done]. simpl.
    destruct (mapM f l) as [k'|]; [|done]. simpl.
    intros [= <-]. simpl. f_equal. by apply IH.
Qed.

Lemma to_numeric_cells (s : list cell) (xs : list num) :
  to_numeric s = Ok xs → Forall (λ v, is_str v = false) s.
Proof.
  unfold to_numeric. revert xs. induction s as [|v s IH]; intros xs; simpl.
  - constructor.
  - destruct v as [t|x]; [done|]. simpl.
    destruct (mapM as_num s) as [xs'|]; [|done]. intros _.
    constructor; [done|]. by eapply IH.
Qed.

Lemma categorize_numeric_cells (s : list cell) :
  Forall (λ v, is_str v = false) s →
  ∃ labels, mapM categorize_performance s = Ok labels.
Proof.
  induction 1 as [|v s Hv Hs (labels & IH)]; simpl; [by eexists|].
  destruct v as [t|x]; [done|].
  rewrite categorize_performance_num. simpl. rewrite IH. simpl. by eexists.
Qed.

(** The loop on objects computes what the loop on values computes, leaves
    every frame that was there untouched, and ends at the frame it started
    from or at a new one. *)
Lemma filter_loop_obj_spec (sel : selections) :
  ∀ (h : heap) (l : loc) (fd : DataFrame),
    h !! l = Some fd →
    (∀ col chosen, (col, chosen) ∈ sel → col ∈ column_names fd) →
    ∃ l' h' fd',
      filter_loop_obj l sel h = Ok (l', h') ∧
      filter_loop fd sel = Ok fd' ∧
      h' !! l' = Some fd' ∧
      h ⊆ h' ∧
      (l' = l ∨ h !! l' = None).
Proof.
  induction sel as [|[col chosen] sel IH]; intros h l fd Hl Hkeys.
  - exists l, h, fd. by split_and!; [..|left].
  - assert (Hrest : ∀ c ch, (c, ch) ∈ sel → c ∈ column_names fd).
    { intros c ch Hin. eapply Hkeys. by right. }
    destruct chosen as [|c0 chosen].
    + simpl. by apply IH.
    + destruct (getitem_own_column fd col) as [s Hs].
      { eapply Hkeys. by left. }
      set (fd1 := getitem_mask fd (isin s (c0 :: chosen))).
      set (l1 := fresh (dom h)).
      assert (Hfresh : h !! l1 = None).
      { apply not_elem_of_dom. apply is_fresh. }
      destruct (IH (<[l1 := fd1]> h) l1 fd1) as (l' & h' & fd' & Hrun & Hval & Hl' & Hsub & Hor).
      { by rewrite lookup_insert_eq. }
      { done. }
      exists l', h', fd'. split_and!.
      * simpl. unfold mbind, prog_bind, deref, lift, new. rewrite Hl, Hs.
        exact Hrun.
      * simpl. rewrite Hs. simpl. exact Hval.
      * done.
      * etrans; [|exact Hsub]. by apply insert_subseteq.
      * right. destruct Hor as [-> |Hnone]; [done|].
        destruct (decide (l' = l1)) as [-> |Hne]; [done|].
        by rewrite lookup_insert_ne in Hnone.
Qed.





(** ** Zero rows *)









(** * Further properties of the pipeline *)

(** ** Filter Engine: success, idempotence, order of the selectors *)

(** The loop succeeds as soon as the columns with a non-empty chosen set
    exist; a column with an empty chosen set is never looked up. *)
Lemma filter_loop_rows_nonempty (cols : list (string * dtype)) (sel : selections) :
  (∀ col chosen, (col, chosen) ∈ sel → chosen ≠ [] → col ∈ cols.*1) →
  ∀ rs, filter_loop (mkFrame cols rs) sel
        = Ok (mkFrame cols (filter (λ r, row_selectedb cols sel r) rs)).
Proof.
  induction sel as [|[col chosen] sel IH]; intros Hkeys rs.
  - simpl. do 2 f_equal. symmetry. apply filter_all.
    by apply Forall_forall.
  - assert (Hrest : ∀ c ch, (c, ch) ∈ sel → ch ≠ [] → c ∈ cols.*1).
    { intros c ch Hin. eapply Hkeys. by right. }
    specialize (IH Hrest). simpl. destruct chosen as [|c0 chosen].
    + simpl. rewrite IH. do 2 f_equal.
    + destruct (col_pos_is_Some col cols) as [i Hi].
      { eapply Hkeys; [by left|done]. }
      unfold getitem. simpl. rewrite Hi. simpl.
      unfold getitem_mask. simpl. unfold isin.
      rewrite <- list_fmap_compose.
      rewrite (boolean_index_fmap (isin1 (c0 :: chosen) ∘ row_get i)).
      rewrite IH. do 2 f_equal.
      rewrite list_filter_filter. apply list_filter_iff.
      intros r. rewrite andb_True. unfold compose. simpl. tauto.
Qed.

Lemma filter_loop_Ok_keys (sel : selections) :
  ∀ d fd, filter_loop d sel = Ok fd →
    ∀ col chosen, (col, chosen) ∈ sel → chosen ≠ [] → col ∈ column_names d.
Proof.
  induction sel as [|[col chosen] sel IH]; intros d fd Hrun c ch Hin Hne.
  - by apply elem_of_nil in Hin.
  - simpl in Hrun. destruct chosen as [|c0 chosen].
    + simpl in Hrun. apply elem_of_cons in Hin as [[= -> ->]|Hin]; [done|].
      by eapply IH.
    + unfold getitem in Hrun.
      destruct (col_pos col (columns d)) as [i|] eqn:Ei; [|done].
      simpl in Hrun. apply elem_of_cons in Hin as [[= -> ->]|Hin].
      * by eapply col_pos_elem_of.
      * by apply (IH _ _ Hrun c ch).
Qed.

Lemma apply_filters_Ok_rows (data fd : DataFrame) (sel : selections) :
  apply_filters data sel = Ok fd →
  fd = mkFrame (columns data)
         (filter (λ r, row_selectedb (columns data) sel r) (rows data)).
Proof.
  intros Hrun. pose proof (filter_loop_Ok_keys _ _ _ Hrun) as Hkeys.
  destruct data as [cols rs]. unfold apply_filters in Hrun.
  rewrite filter_loop_rows_nonempty in Hrun by done. by injection Hrun.
Qed.

(** X1. Filtering a filtered frame again with the same selection changes
    nothing. *)
Theorem apply_filters_idempotent (data fd : DataFrame) (sel : selections) :
  apply_filters data sel = Ok fd → apply_filters fd sel = Ok fd.
Proof.
  intros Hrun. pose proof (filter_loop_Ok_keys _ _ _ Hrun) as Hkeys.
  apply apply_filters_Ok_rows in Hrun. subst fd.
  unfold apply_filters. rewrite filter_loop_rows_nonempty by done.
  do 2 f_equal. simpl. rewrite list_filter_filter.
  apply list_filter_iff. tauto.
Qed.

Lemma apply_filters_idempotent_witness :
  apply_filters
    (mkFrame (columns students)
       [mkRow 0 [Str "Female"; Str "Public"; int_cell 10; int_cell 50];
        mkRow 2 [Str "Female"; Str "Public"; int_cell 30; int_cell 90]])
    [("Gender", [Str "Female"])]
  = Ok (mkFrame (columns students)
          [mkRow 0 [Str "Female"; Str "Public"; int_cell 10; int_cell 50];
           mkRow 2 [Str "Female"; Str "Public"; int_cell 30; int_cell 90]]).
Proof.
  apply (apply_filters_idempotent students). reflexivity.
Defined.

(** X2. The order in which the selectors are applied does not matter: a
    rearranged selection gives the same filtered frame. *)
Theorem apply_filters_order_irrelevant (data fd : DataFrame)
  (sel sel' : selections) :
  sel ≡ₚ sel' →
  apply_filters data sel = Ok fd → apply_filters data sel' = Ok fd.
Proof.
  intros Hperm Hrun.
  pose proof (filter_loop_Ok_keys _ _ _ Hrun) as Hkeys.
  apply apply_filters_Ok_rows in Hrun. subst fd.
  destruct data as [cols rs]. unfold apply_filters.
  rewrite filter_loop_rows_nonempty.
  - simpl. do 2 f_equal. apply list_filter_iff. intros r.
    rewrite !Is_true_true, !row_selectedb_spec. unfold row_selected.
    split; intros H col chosen Hin; apply H; by rewrite ?Hperm in *.
  - intros col chosen Hin. apply (Hkeys col chosen). by rewrite Hperm.
Qed.

Lemma apply_filters_order_irrelevant_witness :
  apply_filters students [("School_Type", [Str "Public"]); ("Gender", [Str "Female"])]
  = Ok (mkFrame (columns students)
          [mkRow 0 [Str "Female"; Str "Public"; int_cell 10; int_cell 50];
           mkRow 2 [Str "Female"; Str "Public"; int_cell 30; int_cell 90]]).
Proof.
  apply (apply_filters_order_irrelevant students _
           [("Gender", [Str "Female"]); ("School_Type", [Str "Public"])]).
  - apply Permutation_swap.
  - reflexivity.
Defined.

(** ** Distinct values and the selectors of the sidebar *)

Lemma StronglySorted_weaken {A} (R1 R2 : relation A) (l : list A) :
  (∀ x y, R1 x y → R2 x y) → StronglySorted R1 l → StronglySorted R2 l.
Proof.
  intros Himpl. induction 1 as [|x l Hl IH Hx]; constructor; [done|].
  eapply Forall_impl; [exact Hx|]. intros y. apply Himpl.
Qed.

Lemma cell_eqb_refl (v : cell) : cell_eqb v v = true.
Proof. apply cell_eqb_same. by destruct v as [a|[a|]]. Qed.

Lemma cell_same_trans (u v w : cell) :
  cell_same u v → cell_same v w → cell_same u w.
Proof.
  destruct u as [a|[a|]], v as [b|[b|]], w as [c|[c|]]; simpl;
    try done; try congruence.
  intros H1 H2. by rewrite H1.
Qed.

Lemma cell_eqb_is_str (v w : cell) : cell_eqb v w = true → is_str v = is_str w.
Proof. by destruct v, w. Qed.

Lemma unique_acc_spec (s seen : list cell) :
  StronglySorted (λ x y, cell_eqb y x = false) seen →
  let u := fold_left (λ seen v, if isin1 seen v then seen else seen ++ [v]) s seen in
  StronglySorted (λ x y, cell_eqb y x = false) u ∧
  (∀ v, v ∈ seen ∨ v ∈ s → ∃ w, w ∈ u ∧ cell_eqb v w = true) ∧
  (length u ≤ length seen + length s)%nat.
Proof.
  revert seen. induction s as [|x s IH]; intros seen Hseen; simpl.
  - split_and!; [done| |lia].
    intros v [Hv|Hv]; [|by apply elem_of_nil in Hv].
    exists v. split; [done|apply cell_eqb_refl].
  - destruct (isin1 seen x) eqn:Ex.
    + destruct (IH seen Hseen) as (Hs & Hall & Hlen). split_and!; [done| |lia].
      intros v [Hv|Hv]; [apply Hall; by left|].
      apply elem_of_cons in Hv as [-> |Hv]; [|apply Hall; by right].
      apply isin1_spec in Ex as (w & Hw & Hsame).
      destruct (Hall w (or_introl Hw)) as (w' & Hw' & Heq).
      exists w'. split; [done|].
      rewrite cell_eqb_same in Heq |- *. by eapply cell_same_trans.
    + destruct (IH (seen ++ [x])) as (Hs & Hall & Hlen).
      { apply StronglySorted_app_2; [|done|repeat constructor].
        intros a b Ha Hb. apply list_elem_of_singleton in Hb. subst b.
        unfold isin1 in Ex. apply not_true_iff_false in Ex.
        apply not_true_iff_false. intros Hab. apply Ex.
        apply existsb_exists. exists a. split; [|done].
        by apply list_elem_of_In. }
      rewrite length_app in Hlen. simpl in Hlen. split_and!; [done| |lia].
      intros v [Hv|Hv].
      * apply Hall. left. apply elem_of_app. by left.
      * apply elem_of_cons in Hv as [-> |Hv]; [|apply Hall; by right].
        apply Hall. left. apply elem_of_app. right. by left.
Qed.

(** X3. [unique] lists every value of a series once: each entry of the result
    occurs in the series, each entry of the series is matched by one of the
    result, no two entries of the result are equal, and there are at most as
    many as the series has rows. *)
Theorem unique_lists_each_value_once (s : list cell) :
  (∀ w, w ∈ unique s → w ∈ s) ∧
  (∀ v, v ∈ s → ∃ w, w ∈ unique s ∧ cell_same v w) ∧
  StronglySorted (λ x y, ¬ cell_same y x) (unique s) ∧
  (length (unique s) ≤ length s)%nat.
Proof.
  destruct (unique_acc_spec s []) as (Hs & Hall & Hlen); [constructor|].
  split_and!.
  - apply unique_subset.
  - intros v Hv. destruct (Hall v (or_intror Hv)) as (w & Hw & Heq).
    exists w. split; [done|]. by apply cell_eqb_same.
  - eapply StronglySorted_weaken; [|exact Hs].
    intros x y Hxy. simpl in Hxy. rewrite <- cell_eqb_same. congruence.
  - exact Hlen.
Qed.

Lemma dict_set_NoDup (d : selections) (k : string) (v : list cell) :
  NoDup d.*1 → NoDup (dict_set d k v).*1.
Proof.
  induction d as [|[k' v'] d IH]; simpl.
  - intros _. apply NoDup_singleton.
  - rewrite NoDup_cons. intros [Hk' Hd]. case_bool_decide as Hk.
    + subst k'. simpl. by apply NoDup_cons.
    + simpl. apply NoDup_cons. split; [|by apply IH].
      rewrite dict_set_keys. naive_solver.
Qed.

Lemma dict_set_length (d : selections) (k : string) (v : list cell) :
  (length (dict_set d k v) ≤ S (length d))%nat.
Proof.
  induction d as [|[k' v'] d IH]; simpl; [lia|].
  case_bool_decide; simpl; lia.
Qed.

Lemma filter_selections_loop_Ok (multiselect : widget) (data : DataFrame)
  (cols : list string) :
  ∀ acc sel,
    filter_selections_loop multiselect data cols acc = Ok sel →
    NoDup acc.*1 →
    NoDup sel.*1 ∧
    (length sel ≤ length acc + length cols)%nat ∧
    (∀ c, offered sel c →
          offered acc c ∨
          (c ∈ cols ∧ ∃ n, distinct_count data c = Some n ∧ (n < 10)%nat)).
Proof.
  unfold offered, distinct_count.
  induction cols as [|col cols IH]; intros acc sel; simpl.
  - intros [= <-] Hnd. split_and!; [done|lia|by left].
  - destruct (getitem data col) as [s|] eqn:Hs; [|done]. simpl.
    destruct (Nat.ltb_spec (length (unique s)) 10) as [Hlt|Hge].
    + destruct (py_sorted (unique s)) as [options|]; [|done]. simpl.
      intros Hrun Hnd.
      destruct (IH _ _ Hrun (dict_set_NoDup _ _ _ Hnd)) as (Hnd' & Hlen & Hk).
      pose proof (dict_set_length acc col (multiselect col options)).
      split_and!; [done|lia|].
      intros c Hc. destruct (Hk c Hc) as [Hacc|(Hin & n & Hn)].
      * apply dict_set_keys in Hacc as [?| ->]; [by left|].
        right. split; [by left|]. exists (length (unique s)). by rewrite Hs.
      * right. split; [by right|]. by exists n.
    + intros Hrun Hnd. destruct (IH _ _ Hrun Hnd) as (Hnd' & Hlen & Hk).
      split_and!; [done|lia|].
      intros c Hc. destruct (Hk c Hc) as [Hacc|(Hin & n & Hn)]; [by left|].
      right. split; [by right|]. by exists n.
Qed.

(** X4. Whatever the data and the user's picks, the sidebar that is built has
    at most three selectors, no column twice, and each selector belongs to a
    column of dtype [object] with fewer than 10 distinct values. *)
Theorem filter_selections_at_most_three_text_columns (multiselect : widget)
  (data : DataFrame) (sel : selections) :
  build_filter_selections multiselect data = Ok sel →
  (length sel ≤ 3)%nat ∧
  NoDup sel.*1 ∧
  (∀ col, offered sel col →
     (col, object) ∈ columns data ∧
     ∃ n, distinct_count data col = Some n ∧ (n < 10)%nat).
Proof.
  intros Hrun.
  destruct (filter_selections_loop_Ok _ _ _ _ _ Hrun) as (Hnd & Hlen & Hk);
    [constructor|].
  split_and!.
  - simpl in Hlen. rewrite length_take in Hlen. lia.
  - done.
  - intros col Hcol. destruct (Hk col Hcol) as [H|(Hin & Hn)].
    { unfold offered in H. by apply elem_of_nil in H. }
    split; [|done]. apply subseteq_take in Hin.
    unfold categorical_cols, select_dtypes in Hin.
    apply list_elem_of_fmap in Hin as ([c d] & -> & Hin).
    apply list_elem_of_filter in Hin as [Hd Hin]. simpl in Hd.
    apply list_elem_of_singleton in Hd. by subst d.
Qed.

Lemma filter_selections_at_most_three_text_columns_witness :
  (length [("Gender", @nil cell); ("School_Type", []); ("Internet_Access", [])]
   ≤ 3)%nat ∧
  NoDup [("Gender", @nil cell); ("School_Type", []); ("Internet_Access", [])].*1 ∧
  (∀ col,
     offered [("Gender", @nil cell); ("School_Type", []); ("Internet_Access", [])] col →
     (col, object) ∈ columns four_text_columns ∧
     ∃ n, distinct_count four_text_columns col = Some n ∧ (n < 10)%nat).
Proof.
  apply (filter_selections_at_most_three_text_columns nothing_chosen).
  reflexivity.
Defined.

Lemma py_sorted_mixed (l : list cell) (a : string) (x : num) :
  Str a ∈ l → Num x ∈ l → py_sorted l = Raise TypeError.
Proof.
  intros Ha Hx. unfold py_sorted.
  assert (forallb is_str l = false) as ->.
  { apply not_true_iff_false. rewrite forallb_forall. intros H.
    specialize (H (Num x)). rewrite <- list_elem_of_In in H.
    by specialize (H Hx). }
  assert (forallb (negb ∘ is_str) l = false) as ->; [|done].
  apply not_true_iff_false. rewrite forallb_forall. intros H.
  specialize (H (Str a)). rewrite <- list_elem_of_In in H.
  by specialize (H Ha).
Qed.

(** X5. A missing entry in a text column breaks the sidebar: when the first
    categorical column has fewer than 10 distinct values, among them a text
    and a missing one, sorting its options raises [TypeError] and no selector
    is built. *)
Theorem missing_entry_in_text_column_raises (multiselect : widget)
  (data : DataFrame) (col : string) (rest : list string) (s : list cell)
  (a : string) :
  categorical_cols data = col :: rest →
  getitem data col = Ok s →
  (length (unique s) < 10)%nat →
  Str a ∈ s → Num NaN ∈ s →
  build_filter_selections multiselect data = Raise TypeError.
Proof.
  intros Hcats Hs Hlt Ha Hnan.
  unfold build_filter_selections. rewrite Hcats. simpl. rewrite Hs. simpl.
  apply Nat.ltb_lt in Hlt. rewrite Hlt.
  destruct (unique_acc_spec s []) as (_ & Hall & _); [constructor|].
  destruct (Hall (Str a) (or_intror Ha)) as (wa & Hwa & Hea).
  destruct (Hall (Num NaN) (or_intror Hnan)) as (wn & Hwn & Hen).
  destruct wa as [a'|]; [|done]. destruct wn as [|x]; [done|].
  fold (unique s) in Hwa, Hwn.
  by rewrite (py_sorted_mixed (unique s) a' x).
Qed.

Lemma missing_entry_in_text_column_raises_witness :
  build_filter_selections nothing_chosen gender_with_gap = Raise TypeError.
Proof.
  apply (missing_entry_in_text_column_raises nothing_chosen gender_with_gap
           "Gender" [] [Str "Female"; Num NaN] "Female").
  - reflexivity.
  - reflexivity.
  - vm_compute. lia.
  - by left.
  - right. by left.
Defined.

(** X6. Once a frame is loaded whose first three categorical columns hold text
    only, the sidebar never raises, whatever the user picks: the selectors
    are built on columns of the frame, and the filtered frame has the columns
    of the raw one and those of its rows, in order, that hold a picked value
    in every column with a non-empty pick. *)
Theorem sidebar_filters_loaded_frame (w : world) (multiselect : widget)
  (uploaded_file : option string) (data : DataFrame) (shown : list message) :
  load_data w uploaded_file = (Some data, shown) →
  (∀ col s, col ∈ take 3 (categorical_cols data) → getitem data col = Ok s →
            Forall (λ v, is_str v = true) s) →
  ∃ sel fd,
    build_filter_selections multiselect data = Ok sel ∧
    sidebar w multiselect uploaded_file = Ok (Some (data, fd), shown) ∧
    columns fd = columns data ∧
    rows fd `sublist_of` rows data ∧
    (∀ r, r ∈ rows fd ↔ r ∈ rows data ∧ row_selected (columns data) sel r).
Proof.
  intros Hload Htext.
  destruct (filter_selections_loop_keys multiselect data
              (take 3 (categorical_cols data))) with (acc := @nil (string * list cell))
    as (sel & Hsel & Hk); [|done|].
  { intros col Hc. apply (select_dtypes_names [object]).
    revert Hc. apply subseteq_take. }
  assert (Hkeys : ∀ col chosen, (col, chosen) ∈ sel → col ∈ column_names data).
  { intros col chosen Hin.
    assert (offered sel col) as Hoff.
    { unfold offered. apply list_elem_of_fmap. by exists (col, chosen). }
    apply Hk in Hoff as [Hoff|[Hoff _]].
    - unfold offered in Hoff. by apply elem_of_nil in Hoff.
    - apply (select_dtypes_names [object]). revert Hoff. apply subseteq_take. }
  destruct data as [cols rs].
  exists sel, (mkFrame cols (filter (λ r, row_selectedb cols sel r) rs)).
  split_and!.
  - done.
  - unfold sidebar. rewrite Hload.
    unfold build_filter_selections. rewrite Hsel. simpl.
    unfold apply_filters. by rewrite filter_loop_rows.
  - done.
  - apply sublist_filter.
  - intros r. simpl. rewrite list_elem_of_filter, <- row_selectedb_spec.
    rewrite Is_true_true. tauto.
Qed.

Lemma sidebar_filters_loaded_frame_witness :
  ∃ sel fd,
    build_filter_selections nothing_chosen students = Ok sel ∧
    sidebar bucket_only nothing_chosen None
    = Ok (Some (students, fd), [success "Successfully loaded data from S3!"]) ∧
    columns fd = columns students ∧
    rows fd `sublist_of` rows students ∧
    (∀ r, r ∈ rows fd ↔ r ∈ rows students ∧ row_selected (columns students) sel r).
Proof.
  apply (sidebar_filters_loaded_frame bucket_only nothing_chosen None students).
  - reflexivity.
  - intros col s Hcol. vm_compute in Hcol.
    repeat (apply elem_of_cons in Hcol as [-> |Hcol];
            [intros [= <-]; repeat constructor|]).
    by apply elem_of_nil in Hcol.
Defined.

(** ** Filter summary *)

Lemma Qred_eq (q : Q) (p : Q) : Qred q = p → (q == p)%Q.
Proof. intros <-. symmetry. apply Qred_correct. Qed.

Lemma inject_nat_pos (n : nat) : (0 < n)%nat → (0 < inject_Z (Z.of_nat n))%Q.
Proof. intros H. unfold Qlt. simpl. lia. Qed.

Lemma inject_nat_le (n m : nat) :
  (n ≤ m)%nat → (inject_Z (Z.of_nat n) <= inject_Z (Z.of_nat m))%Q.
Proof. intros H. unfold Qle. simpl. lia. Qed.

Lemma inject_nat_lt (n m : nat) :
  (n < m)%nat → (inject_Z (Z.of_nat n) < inject_Z (Z.of_nat m))%Q.
Proof. intros H. unfold Qlt. simpl. lia. Qed.

Lemma inject_nat_nonneg (n : nat) : (0 <= inject_Z (Z.of_nat n))%Q.
Proof. unfold Qle. simpl. lia. Qed.

(** X7. After any filter the summary line never divides by zero: it is left
    out exactly when no row was dropped, and otherwise shows the row counts
    with a percentage that is their ratio, at least 0 and below 100. *)
Theorem filter_summary_after_filter (data fd : DataFrame) (sel : selections) :
  apply_filters data sel = Ok fd →
  filter_summary data fd ≠ ZeroDivisionError ∧
  (filter_summary data fd = NoSummary ↔ shape0 fd = shape0 data) ∧
  (∀ kept total percent,
     filter_summary data fd = Summary kept total percent →
     kept = shape0 fd ∧ total = shape0 data ∧ (kept < total)%nat ∧
     (percent == inject_Z (Z.of_nat kept) / inject_Z (Z.of_nat total) * 100)%Q ∧
     (0 <= percent)%Q ∧ (percent < 100)%Q).
Proof.
  intros Hrun. apply apply_filters_Ok_rows in Hrun.
  assert (Hle : (shape0 fd ≤ shape0 data)%nat).
  { subst fd. unfold shape0. simpl. apply length_filter. }
  unfold filter_summary.
  destruct (Nat.eqb_spec (shape0 fd) (shape0 data)) as [Heq|Hne].
  { split_and!; [done|done|done]. }
  destruct (Nat.eqb_spec (shape0 data) 0) as [H0|Hpos]; [lia|].
  split_and!; [done|split; [done|lia]|].
  intros kept total percent [= <- <- <-].
  pose proof (inject_nat_pos (shape0 data)) as Hd.
  pose proof (inject_nat_lt (shape0 fd) (shape0 data)) as Hlt.
  pose proof (inject_nat_nonneg (shape0 fd)) as Hf.
  set (f := inject_Z (Z.of_nat (shape0 fd))) in *.
  set (d := inject_Z (Z.of_nat (shape0 data))) in *.
  assert (0 < d)%Q as Hd' by (apply Hd; lia).
  assert (f < d)%Q as Hlt' by (apply Hlt; lia).
  assert (0 <= f / d)%Q as Hq0.
  { apply Qle_shift_div_l; [done|]. lra. }
  assert (f / d < 1)%Q as Hq1.
  { apply Qlt_shift_div_r; [done|]. lra. }
  split_and!; [done|done|lia|apply Qred_correct|..];
    rewrite Qred_correct; lra.
Qed.

Lemma filter_summary_after_filter_witness :
  filter_summary students
    (mkFrame (columns students)
       [mkRow 0 [Str "Female"; Str "Public"; int_cell 10; int_cell 50];
        mkRow 2 [Str "Female"; Str "Public"; int_cell 30; int_cell 90]])
  ≠ ZeroDivisionError.
Proof.
  apply (filter_summary_after_filter students _ [("Gender", [Str "Female"])]).
  reflexivity.
Defined.

Example filter_summary_students :
  filter_summary students
    (mkFrame (columns students)
       [mkRow 0 [Str "Female"; Str "Public"; int_cell 10; int_cell 50];
        mkRow 2 [Str "Female"; Str "Public"; int_cell 30; int_cell 90]])
  = Summary 2 3 (200 # 3).
Proof. reflexivity. Qed.

(** ** Data quality *)

Lemma filter_length_pos {A} (P : A → Prop) `{!∀ x, Decision (P x)} (l : list A) :
  (0 < length (filter P l))%nat ↔ ∃ x, x ∈ l ∧ P x.
Proof.
  split.
  - destruct (filter P l) as [|x k] eqn:E; simpl; [lia|]. intros _.
    assert (x ∈ filter P l) as Hx by (rewrite E; by left).
    apply list_elem_of_filter in Hx as [??]. by exists x.
  - intros (x & Hx & HP).
    assert (x ∈ filter P l) as Hin by by apply list_elem_of_filter.
    destruct (filter P l); [by apply elem_of_nil in Hin|simpl; lia].
Qed.




Example data_quality_gender_with_gap :
  data_quality gender_with_gap = MissingTable [("Gender", 1%nat, Fin 50)].
Proof. reflexivity. Qed.

(** ** Range of the metric cards *)








Lemma count_passing_le (k : Q) (s : list num) : (count_passing k s ≤ length s)%nat.
Proof. apply length_filter. Qed.

(** X10. The pass rate of a column with rows lies between 0 and 100; it is 100
    exactly when every row has a score of at least 60, and 0 exactly when
    none has. *)
Theorem pass_rate_between_0_and_100 (s : list num) :
  s ≠ [] →
  ∃ q, pass_rate s = Fin q ∧ (0 <= q)%Q ∧ (q <= 100)%Q ∧
       ((q == 100)%Q ↔ Forall (passes 60) s) ∧
       ((q == 0)%Q ↔ Forall (λ x, ¬ passes 60 x) s).
Proof.
  intros Hne. destruct (pass_rate_value s Hne) as (q & Hq & Hv).
  exists q. split; [done|].
  pose proof (count_passing_le 60 s) as Hle.
  assert (0 < length s)%nat as Hlen by (destruct s; [done|simpl; lia]).
  pose proof (inject_nat_pos _ Hlen) as Hd.
  pose proof (inject_nat_le _ _ Hle) as Hcd.
  pose proof (inject_nat_nonneg (count_passing 60 s)) as Hc.
  set (c := inject_Z (Z.of_nat (count_passing 60 s))) in *.
  set (d := inject_Z (Z.of_nat (length s))) in *.
  assert (0 <= c / d)%Q as H0 by (apply Qle_shift_div_l; [done|lra]).
  assert (c / d <= 1)%Q as H1 by (apply Qle_shift_div_r; [done|lra]).
  assert ((c / d == 1)%Q ↔ count_passing 60 s = length s) as Hall.
  { split.
    - intros He. assert (c == d)%Q as Hcd'.
      { rewrite <- (Qmult_div_r c d) by lra. rewrite He. ring. }
      unfold c, d, Qeq in Hcd'. simpl in Hcd'. lia.
    - intros He. unfold c. rewrite He. fold d. field. lra. }
  assert ((c / d == 0)%Q ↔ count_passing 60 s = 0%nat) as Hnone.
  { split.
    - intros He. assert (c == 0)%Q as Hc0.
      { rewrite <- (Qmult_div_r c d) by lra. rewrite He. ring. }
      unfold c, Qeq in Hc0. simpl in Hc0. lia.
    - intros He. unfold c. rewrite He. unfold Qdiv. simpl. ring. }
  split_and!.
  - rewrite Hv. lra.
  - rewrite Hv. lra.
  - rewrite Hv. split.
    + intros He. assert (c / d == 1)%Q as He1 by lra.
      apply Hall in He1. unfold count_passing in He1.
      apply Forall_forall. intros x Hx.
      destruct (decide (passes 60 x)) as [|Hn]; [done|].
      exfalso. pose proof (length_filter_lt (passes 60) s x Hx Hn). lia.
    + intros Hf. assert (c / d == 1)%Q as ->; [|ring].
      apply Hall. unfold count_passing. by rewrite filter_all.
  - rewrite Hv. split.
    + intros He. assert (c / d == 0)%Q as He0 by lra.
      apply Hnone in He0. unfold count_passing in He0.
      apply length_zero_iff_nil in He0.
      apply Forall_forall. intros x Hx Hp.
      by apply (filter_nil_not_elem_of (passes 60) s x He0 Hp).
    + intros Hf. assert (c / d == 0)%Q as ->; [|ring].
      apply Hnone. unfold count_passing. by rewrite filter_none.
Qed.

Lemma pass_rate_between_0_and_100_witness :
  ∃ q, pass_rate [Fin 50; Fin 60; NaN] = Fin q ∧ (0 <= q)%Q ∧ (q <= 100)%Q ∧
       ((q == 100)%Q ↔ Forall (passes 60) [Fin 50; Fin 60; NaN]) ∧
       ((q == 0)%Q ↔ Forall (λ x, ¬ passes 60 x) [Fin 50; Fin 60; NaN]).
Proof.
  apply (pass_rate_between_0_and_100 [Fin 50; Fin 60; NaN]). discriminate.
Defined.

(** ** The overview without a filter, and on a text outcome column *)

Lemma filter_loop_all_empty (sel : selections) (d : DataFrame) :
  (∀ col chosen, (col, chosen) ∈ sel → chosen = []) → filter_loop d sel = Ok d.
Proof.
  induction sel as [|[col chosen] sel IH]; intros Hempty; [done|].
  simpl. rewrite (Hempty col chosen) by by left. simpl.
  apply IH. intros c ch Hin. apply (Hempty c ch). by right.
Qed.

Lemma num_sub_diag (q : Q) : num_sub (Fin q) (Fin q) = Fin 0.
Proof.
  simpl. f_equal. change 0%Q with (Qred 0). apply Qred_complete. ring.
Qed.

Lemma numeric_column_has_column (df : DataFrame) (col : string) (xs : list num) :
  numeric_column df col = Ok xs → has_column df col = true.
Proof.
  unfold numeric_column, getitem, has_column. intros H.
  destruct (col_pos col (columns df)) as [i|] eqn:Ei; [|done].
  apply bool_decide_eq_true. by eapply col_pos_elem_of.
Qed.

Lemma finite_nonempty (s : list num) : finite s ≠ [] → s ≠ [].
Proof. by intros H ->. Qed.

(** X11. While every selector is empty, the overview compares the data with
    itself: on an outcome column with at least one score the average and the
    pass rate are shown with a difference of 0, and the student count is that
    of the raw data. *)
Theorem no_filter_gives_zero_deltas (data : DataFrame) (sel : selections)
  (ds : list num) :
  (∀ col chosen, (col, chosen) ∈ sel → chosen = []) →
  numeric_column data "Exam_Score" = Ok ds →
  finite ds ≠ [] →
  ∃ fd avg rate lo hi,
    apply_filters data sel = Ok fd ∧
    tab1_metrics data fd
    = Ok (mkOverview (Some (Fin avg, Fin 0)) (Some (Fin rate, Fin 0))
            (shape0 data) (Some (Fin lo, Fin hi))).
Proof.
  intros Hempty Hnum Hfin.
  destruct (pass_rate_value ds (finite_nonempty _ Hfin)) as (rate & Hrate & _).
  destruct (finite ds) as [|x xs] eqn:E; [done|].
  exists data, (Qred (Qsum (x :: xs) / Qlen (x :: xs))), rate,
         (foldr Qmin x xs), (foldr Qmax x xs). split.
  - by apply filter_loop_all_empty.
  - unfold tab1_metrics. rewrite (numeric_column_has_column _ _ _ Hnum), Hnum.
    simpl. unfold mean, series_min, series_max. rewrite E, Hrate.
    by rewrite !num_sub_diag.
Qed.

Lemma no_filter_gives_zero_deltas_witness :
  ∃ fd avg rate lo hi,
    apply_filters students [("Gender", []); ("School_Type", [])] = Ok fd ∧
    tab1_metrics students fd
    = Ok (mkOverview (Some (Fin avg, Fin 0)) (Some (Fin rate, Fin 0))
            (shape0 students) (Some (Fin lo, Fin hi))).
Proof.
  apply (no_filter_gives_zero_deltas students
           [("Gender", []); ("School_Type", [])] [Fin 50; Fin 70; Fin 90]).
  - intros col chosen Hin.
    repeat (apply elem_of_cons in Hin as [[= _ ->]|Hin]; [done|]).
    by apply elem_of_nil in Hin.
  - reflexivity.
  - discriminate.
Defined.

Lemma to_numeric_text (s : list cell) (a : string) :
  Str a ∈ s → to_numeric s = Raise TypeError.
Proof.
  unfold to_numeric. induction s as [|v s IH]; intros Hin.
  - by apply elem_of_nil in Hin.
  - simpl. destruct v as [b|x]; [done|]. simpl.
    apply elem_of_cons in Hin as [?|Hin]; [done|]. by rewrite IH.
Qed.

(** X12. An outcome column that holds text makes the overview raise
    [TypeError]: no metric card is computed for a frame whose [Exam_Score]
    column has a text entry. *)
Theorem text_score_raises_in_overview (data fd : DataFrame) (s : list cell)
  (a : string) :
  getitem fd "Exam_Score" = Ok s → Str a ∈ s →
  tab1_metrics data fd = Raise TypeError.
Proof.
  intros Hs Ha. unfold tab1_metrics.
  assert (has_column fd "Exam_Score" = true) as ->.
  { unfold getitem in Hs.
    destruct (col_pos "Exam_Score" (columns fd)) as [i|] eqn:Ei; [|done].
    apply bool_decide_eq_true. by eapply col_pos_elem_of. }
  assert (numeric_column fd "Exam_Score" = Raise TypeError) as ->; [|done].
  unfold numeric_column. rewrite Hs. simpl. by apply (to_numeric_text s a).
Qed.

Lemma text_score_raises_in_overview_witness :
  tab1_metrics text_scores text_scores = Raise TypeError.
Proof.
  apply (text_score_raises_in_overview text_scores text_scores
           [Str "67"; Str "absent"] "67").
  - reflexivity.
  - by left.
Defined.

(** ** Frames as objects *)

(** X13. On objects the filter does what it does on values and touches no
    frame that exists: [filtered_data] ends up bound to a frame at an address
    that was not in use, holding the filtered frame, and every frame that was
    alive, the raw one included, is as before. *)
Theorem apply_filters_obj_refines_apply_filters (h : heap) (data : loc)
  (d : DataFrame) (sel : selections) :
  h !! data = Some d →
  (∀ col chosen, (col, chosen) ∈ sel → col ∈ column_names d) →
  ∃ filtered_data h' fd,
    apply_filters_obj data sel h = Ok (filtered_data, h') ∧
    apply_filters d sel = Ok fd ∧
    h' !! filtered_data = Some fd ∧
    h !! filtered_data = None ∧
    (∀ l df, h !! l = Some df → h' !! l = Some df).
Proof.
  intros Hdata Hkeys.
  set (l0 := fresh (dom h)).
  assert (Hl0 : h !! l0 = None) by (apply not_elem_of_dom, is_fresh).
  destruct (filter_loop_obj_spec sel (<[l0 := d]> h) l0 d)
    as (l' & h' & fd & Hrun & Hval & Hl' & Hsub & Hor);
    [by rewrite lookup_insert_eq|done|].
  exists l', h', fd. split_and!; try done.
  - unfold apply_filters_obj, mbind, prog_bind, deref, new.
    rewrite Hdata. fold l0. exact Hrun.
  - destruct Hor as [-> |Hnone]; [done|].
    destruct (decide (l' = l0)) as [-> |Hne]; [done|].
    by rewrite lookup_insert_ne in Hnone.
  - intros l df Hl. eapply lookup_weaken; [|exact Hsub].
    rewrite lookup_insert_ne; [done|]. congruence.
Qed.

Lemma apply_filters_obj_refines_apply_filters_witness :
  ∃ filtered_data h' fd,
    apply_filters_obj 0%nat [("Gender", [Str "Female"])] {[ 0%nat := students ]}
    = Ok (filtered_data, h') ∧
    apply_filters students [("Gender", [Str "Female"])] = Ok fd ∧
    h' !! filtered_data = Some fd ∧
    ({[ 0%nat := students ]} : heap) !! filtered_data = None ∧
    (∀ l df, ({[ 0%nat := students ]} : heap) !! l = Some df → h' !! l = Some df).
Proof.
  apply (apply_filters_obj_refines_apply_filters
           {[ 0%nat := students ]} 0%nat students [("Gender", [Str "Female"])]).
  - reflexivity.
  - intros col chosen Hin. apply list_elem_of_singleton in Hin.
    injection Hin as -> ->. unfold column_names. simpl. set_solver.
Defined.

Lemma mapM_res_Forall2 {A B} (f : A → res B) (l : list A) (k : list B) :
  mapM f l = Ok k → Forall2 (λ x y, f x = Ok y) l k.
Proof.
  revert k. induction l as [|x l IH]; intros k; simpl.
  - intros [= <-]. constructor.
  - destruct (f x) as [y|] eqn:Ey; [|done]. simpl.
    destruct (mapM f l) as [k'|]; [|done]. simpl.
    intros [= <-]. constructor; [done|by apply IH].
Qed.

(** X14. After the filter and the assignment of tab 2, the column
    [Performance_Category] of the filtered frame holds, row by row, the band
    of that row's [Exam_Score], and the scores themselves are as the filter
    left them. *)
Theorem performance_category_is_band_of_each_score (h : heap) (data : loc)
  (d : DataFrame) (sel : selections) (scores : list num) :
  h !! data = Some d →
  (∀ col chosen, (col, chosen) ∈ sel → col ∈ column_names d) →
  numeric_column d "Exam_Score" = Ok scores →
  ∃ filtered_data h' fd fd' s bands,
    filter_then_categorize data sel h = Ok (filtered_data, h') ∧
    h' !! filtered_data = Some fd' ∧
    apply_filters d sel = Ok fd ∧
    getitem fd "Exam_Score" = Ok s ∧
    getitem fd' "Exam_Score" = Ok s ∧
    getitem fd' "Performance_Category" = Ok (Str <$> bands) ∧
    Forall2 (λ score band, categorize_performance score = Ok band) s bands.
Proof.
  intros Hdata Hkeys Hnum.
  set (l0 := fresh (dom h)).
  destruct (filter_loop_obj_spec sel (<[l0 := d]> h) l0 d)
    as (l' & h' & fd & Hrun0 & Hval & Hl' & _ & _);
    [by rewrite lookup_insert_eq|done|].
  assert (Hrun : apply_filters_obj data sel h = Ok (l', h')).
  { unfold apply_filters_obj, mbind, prog_bind, deref, new.
    rewrite Hdata. fold l0. exact Hrun0. }
  pose proof Hval as Hrows. apply apply_filters_Ok_rows in Hrows.
  unfold numeric_column, getitem in Hnum.
  destruct (col_pos "Exam_Score" (columns d)) as [i|] eqn:Ei; [|done].
  simpl in Hnum. apply to_numeric_cells in Hnum.
  assert (Hs : getitem fd "Exam_Score" = Ok (row_get i <$> rows fd)).
  { unfold getitem. rewrite Hrows. simpl. by rewrite Ei. }
  destruct (categorize_numeric_cells (row_get i <$> rows fd)) as [bands Hbands].
  { rewrite Hrows. simpl.
    rewrite Forall_fmap in Hnum |- *. rewrite Forall_forall in Hnum |- *.
    intros r [_ Hr]%list_elem_of_filter. by apply Hnum. }
  assert (Hlen : length (Str <$> bands) = length (rows fd)).
  { rewrite length_fmap, (mapM_res_length _ _ _ Hbands). by rewrite length_fmap. }
  destruct (setitem_frame fd "Performance_Category" (Str <$> bands) Hlen)
    as (_ & _ & Hcols & Hnew).
  exists l', (<[l' := setitem fd "Performance_Category" (Str <$> bands)]> h'),
         fd, (setitem fd "Performance_Category" (Str <$> bands)),
         (row_get i <$> rows fd), bands.
  split_and!; try done.
  - unfold filter_then_categorize, mbind, prog_bind. rewrite Hrun.
    unfold add_performance_category, mbind, prog_bind, deref. rewrite Hl'.
    assert (has_column fd "Exam_Score" = true) as ->.
    { apply bool_decide_eq_true. unfold column_names. rewrite Hrows. simpl.
      by eapply col_pos_elem_of. }
    unfold lift. by rewrite Hs, Hbands.
  - by rewrite lookup_insert_eq.
  - rewrite Hcols; [done| |done].
    unfold column_names. rewrite Hrows. simpl. by eapply col_pos_elem_of.
  - by apply mapM_res_Forall2.
Qed.

Lemma performance_category_is_band_of_each_score_witness :
  ∃ filtered_data h' fd fd' s bands,
    filter_then_categorize 0%nat [("Gender", [Str "Female"])]
      {[ 0%nat := students ]} = Ok (filtered_data, h') ∧
    h' !! filtered_data = Some fd' ∧
    apply_filters students [("Gender", [Str "Female"])] = Ok fd ∧
    getitem fd "Exam_Score" = Ok s ∧
    getitem fd' "Exam_Score" = Ok s ∧
    getitem fd' "Performance_Category" = Ok (Str <$> bands) ∧
    Forall2 (λ score band, categorize_performance score = Ok band) s bands.
Proof.
  apply (performance_category_is_band_of_each_score
           {[ 0%nat := students ]} 0%nat students
           [("Gender", [Str "Female"])] [Fin 50; Fin 70; Fin 90]).
  - reflexivity.
  - intros col chosen Hin. apply list_elem_of_singleton in Hin.
    injection Hin as -> ->. unfold column_names. simpl. set_solver.
  - reflexivity.
Defined.

(** ** Range of the correlation coefficient *)

Lemma Qsum_sq_nonneg {A} (f : A → Q) (l : list A) :
  (0 <= Qsum ((λ a, f a * f a) <$> l))%Q.
Proof.
  induction l as [|x l IH]; [simpl; lra|].
  rewrite fmap_cons. unfold Qsum in *. cbn [foldr].
  set (t := foldr Qplus 0%Q _) in *.
  pose proof (Qsquare_nonneg (f x)). lra.
Qed.

Lemma Qsum_quadratic {A} (u v : A → Q) (t : Q) (l : list A) :
  (Qsum ((λ a, (u a * t - v a) * (u a * t - v a)) <$> l)
   == t * t * Qsum ((λ a, u a * u a) <$> l)
      - 2 * t * Qsum ((λ a, u a * v a) <$> l)
      + Qsum ((λ a, v a * v a) <$> l))%Q.
Proof.
  induction l as [|x l IH]; [simpl; ring|].
  rewrite !fmap_cons. unfold Qsum in *. cbn [foldr]. rewrite IH. ring.
Qed.

(** The inequality of Cauchy and Schwarz for the sums behind the coefficient. *)
Lemma Qsum_cauchy_schwarz {A} (u v : A → Q) (l : list A) :
  (0 < Qsum ((λ a, u a * u a) <$> l))%Q →
  (Qsum ((λ a, u a * v a) <$> l) * Qsum ((λ a, u a * v a) <$> l)
   <= Qsum ((λ a, u a * u a) <$> l) * Qsum ((λ a, v a * v a) <$> l))%Q.
Proof.
  intros HU.
  set (U := Qsum ((λ a, u a * u a)%Q <$> l)) in *.
  set (V := Qsum ((λ a, v a * v a)%Q <$> l)).
  set (S := Qsum ((λ a, u a * v a)%Q <$> l)).
  pose proof (Qsum_sq_nonneg (λ a, u a * (S / U) - v a)%Q l) as Hpos.
  rewrite (Qsum_quadratic u v (S / U) l) in Hpos. fold U V S in Hpos.
  assert (S / U * (S / U) * U - 2 * (S / U) * S + V == V - S * S / U)%Q as Heq.
  { field. lra. }
  rewrite Heq in Hpos.
  assert (S * S / U <= V)%Q as Hle by lra.
  assert (S * S == S * S / U * U)%Q as -> by (field; lra).
  assert (U * V == V * U)%Q as -> by ring.
  apply Qmult_le_compat_r; [done|lra].
Qed.

Lemma deviation_sums (ps : list (Q * Q)) :
  sq_deviation ps.*1
  = Qsum ((λ p : Q * Q, (p.1 - Qmean ps.*1) * (p.1 - Qmean ps.*1))%Q <$> ps) ∧
  sq_deviation ps.*2
  = Qsum ((λ p : Q * Q, (p.2 - Qmean ps.*2) * (p.2 - Qmean ps.*2))%Q <$> ps).
Proof.
  unfold sq_deviation. by rewrite <- !list_fmap_compose.
Qed.

(** X15. A correlation coefficient, whenever it is defined, lies between -1
    and 1, the range the charts of tabs 3 and 4 are scaled to. *)
Theorem pearson_between_minus_one_and_one (xs ys : list num) (r : R) :
  pearson xs ys = Coef r → (-1 <= r <= 1)%R.
Proof.
  unfold pearson. set (ps := complete_pairs xs ys).
  destruct (deviation_sums ps) as [HU HV].
  pose proof (sq_deviation_nonneg ps.*1) as HU0.
  pose proof (sq_deviation_nonneg ps.*2) as HV0.
  destruct (Qeq_bool (sq_deviation ps.*1 * sq_deviation ps.*2) 0) eqn:E; [done|].
  intros [= <-].
  assert (¬ (sq_deviation ps.*1 * sq_deviation ps.*2 == 0)%Q) as Hne.
  { intros H. apply Qeq_bool_iff in H. congruence. }
  assert (0 < sq_deviation ps.*1)%Q as HUpos.
  { destruct (Qlt_le_dec 0 (sq_deviation ps.*1)) as [|Hle]; [done|].
    destruct Hne. assert (sq_deviation ps.*1 == 0)%Q as -> by lra. ring. }
  assert (0 < sq_deviation ps.*2)%Q as HVpos.
  { destruct (Qlt_le_dec 0 (sq_deviation ps.*2)) as [|Hle]; [done|].
    destruct Hne. assert (sq_deviation ps.*2 == 0)%Q as -> by lra. ring. }
  assert (co_deviation ps * co_deviation ps
          <= sq_deviation ps.*1 * sq_deviation ps.*2)%Q as HCS.
  { rewrite HU, HV. unfold co_deviation.
    apply (Qsum_cauchy_schwarz (λ p : Q * Q, p.1 - Qmean ps.*1)%Q
             (λ p : Q * Q, p.2 - Qmean ps.*2)%Q ps).
    by rewrite <- HU. }
  assert (0 < sq_deviation ps.*1 * sq_deviation ps.*2)%Q as Hprod.
  { apply Qmult_lt_0_compat; done. }
  apply Qle_Rle in HCS. apply Qlt_Rlt in Hprod.
  rewrite Q2R_mult in HCS. rewrite RMicromega.Q2R_0 in Hprod.
  set (s := Q2R (co_deviation ps)) in *.
  set (P := Q2R (sq_deviation ps.*1 * sq_deviation ps.*2)) in *.
  pose proof (sqrt_lt_R0 P Hprod) as HD.
  pose proof (sqrt_sqrt P (Rlt_le _ _ Hprod)) as HDD.
  set (D := sqrt P) in *.
  assert (- D <= s <= D)%R as [Hlo Hhi] by nra.
  split.
  - apply (Rmult_le_reg_r D); [done|].
    unfold Rdiv. rewrite Rmult_assoc, Rinv_l by lra. lra.
  - apply (Rmult_le_reg_r D); [done|].
    unfold Rdiv. rewrite Rmult_assoc, Rinv_l by lra. lra.
Qed.

Lemma pearson_between_minus_one_and_one_witness :
  ∃ r, pearson [Fin 10; Fin 20; Fin 30] [Fin 50; Fin 70; Fin 90] = Coef r ∧
       (-1 <= r <= 1)%R.
Proof.
  eexists. split; [reflexivity|].
  apply (pearson_between_minus_one_and_one
           [Fin 10; Fin 20; Fin 30] [Fin 50; Fin 70; Fin 90]).
  reflexivity.
Defined.

(** ** The lists of top factors *)

Lemma take_3_nil {A} (l : list A) : take 3 l = [] ↔ l = [].
Proof. by destruct l. Qed.

Lemma filter_nil_iff {A} (P : A → Prop) `{!∀ x, Decision (P x)} (l : list A) :
  filter P l = [] ↔ ∀ x, x ∈ l → ¬ P x.
Proof.
  split.
  - intros Hnil x Hx HP. by apply (filter_nil_not_elem_of P l x Hnil HP).
  - intros Hall. apply filter_none. by apply Forall_forall.
Qed.

Lemma Permutation_nil_iff {A} (l k : list A) : l ≡ₚ k → l = [] ↔ k = [].
Proof.
  intros Hperm. split; intros ->.
  - by apply Permutation_nil_l in Hperm.
  - by apply Permutation_nil_r in Hperm.
Qed.

Section top_lists.
Context {A : Type} (R : relation A) (P : A → Prop) `{!∀ x, Decision (P x)}.

(** The first rows of a sorted rearrangement of the rows that pass a test:
    they pass it, and a row that passes and is left out stands after every
    one of them in the order. *)
Lemma take_sorted_selection (n : nat) (l sorted : list A) :
  sorted ≡ₚ filter P l → StronglySorted R sorted →
  (∀ e, e ∈ take n sorted → e ∈ l ∧ P e) ∧
  (∀ e t, e ∈ l → P e → e ∉ take n sorted → t ∈ take n sorted → R t e).
Proof.
  intros Hperm Hsorted. split.
  - intros e He%subseteq_take. rewrite Hperm in He.
    apply list_elem_of_filter in He. tauto.
  - intros e t He HP Hout Ht.
    assert (e ∈ sorted) as Hin.
    { rewrite Hperm. by apply list_elem_of_filter. }
    rewrite <- (take_drop n sorted) in Hin, Hsorted.
    apply elem_of_app in Hin as [Hin|Hin]; [done|].
    by eapply StronglySorted_app_1_elem_of.
Qed.
End top_lists.

(** X16. The two lists of key insights hold at most three factors each, every
    one taken from the table with a coefficient above 0 (below 0); a factor
    with such a coefficient that is left out has a coefficient no greater
    (no smaller) than any listed one; and a list is empty exactly when the
    table has no factor of its sign, which is when the page reports that no
    negative correlation was found. *)
Theorem top_factors_are_the_extremes (kind : sort_kind)
  (correlations : list corr_row) :
  sorts kind →
  (length (top_positive kind correlations) ≤ 3)%nat ∧
  (length (top_negative kind correlations) ≤ 3)%nat ∧
  (∀ e, e ∈ top_positive kind correlations → e ∈ correlations ∧ positive e.2) ∧
  (∀ e, e ∈ top_negative kind correlations → e ∈ correlations ∧ negative e.2) ∧
  (∀ e t, e ∈ correlations → positive e.2 →
          e ∉ top_positive kind correlations →
          t ∈ top_positive kind correlations → num_le e.2 t.2) ∧
  (∀ e t, e ∈ correlations → negative e.2 →
          e ∉ top_negative kind correlations →
          t ∈ top_negative kind correlations → num_le t.2 e.2) ∧
  (top_positive kind correlations = []
   ↔ ∀ e, e ∈ correlations → ¬ positive e.2) ∧
  (top_negative kind correlations = []
   ↔ ∀ e, e ∈ correlations → ¬ negative e.2).
Proof.
  intros Hkind.
  assert (Hperm : corr_df kind correlations ≡ₚ correlations).
  { by apply sort_values_perm. }
  set (pos := filter (λ e : corr_row, positive e.2) (corr_df kind correlations)).
  set (neg := sort_values kind snd true
                (filter (λ e : corr_row, negative e.2) (corr_df kind correlations))).
  assert (Hpos_perm : pos ≡ₚ filter (λ e : corr_row, positive e.2) correlations).
  { unfold pos. by rewrite Hperm. }
  assert (Hneg_perm : neg ≡ₚ filter (λ e : corr_row, negative e.2) correlations).
  { unfold neg. rewrite sort_values_perm by done. by rewrite Hperm. }
  assert (Hpos_sorted : StronglySorted (λ a b : corr_row, num_le b.2 a.2) pos).
  { apply (sort_values_filter_sorted snd kind Hkind
             (λ e : corr_row, positive e.2) false).
    apply positive_has_key. }
  assert (Hneg_sorted : StronglySorted (λ a b : corr_row, num_le a.2 b.2) neg).
  { assert (Forall (λ e : corr_row, negative e.2) neg) as Hall.
    { rewrite Hneg_perm. apply Forall_forall.
      by intros e [He _]%list_elem_of_filter. }
    rewrite <- (filter_all (λ e : corr_row, negative e.2) _ Hall).
    apply (sort_values_filter_sorted snd kind Hkind
             (λ e : corr_row, negative e.2) true).
    apply negative_has_key. }
  change (top_positive kind correlations) with (take 3 pos).
  change (top_negative kind correlations) with (take 3 neg).
  destruct (take_sorted_selection (λ a b : corr_row, num_le b.2 a.2)
              (λ e : corr_row, positive e.2) 3 correlations pos
              Hpos_perm Hpos_sorted) as [Hp1 Hp2].
  destruct (take_sorted_selection (λ a b : corr_row, num_le a.2 b.2)
              (λ e : corr_row, negative e.2) 3 correlations neg
              Hneg_perm Hneg_sorted) as [Hn1 Hn2].
  split_and!.
  - rewrite length_take. lia.
  - rewrite length_take. lia.
  - exact Hp1.
  - exact Hn1.
  - intros e t He HP Hout Ht. by apply (Hp2 e t).
  - intros e t He HP Hout Ht. by apply (Hn2 e t).
  - rewrite take_3_nil, <- filter_nil_iff. by apply Permutation_nil_iff.
  - rewrite take_3_nil, <- filter_nil_iff. by apply Permutation_nil_iff.
Qed.

Lemma top_factors_are_the_extremes_witness :
  (length (top_positive insertion_sort tied_table) ≤ 3)%nat.
Proof.
  apply (top_factors_are_the_extremes insertion_sort tied_table).
  exact insertion_sort_sorts.
Defined.

(** ** The loader and the page *)

(** X17. [load_data] returns no dataset exactly when the remote fetch or parse
    fails and there is no upload that parses; the last message shown is then
    the S3 error, and a success message otherwise. *)
Theorem load_data_none_iff_no_source (w : world) (uploaded_file : option string) :
  ((load_data w uploaded_file).1 = None ↔
   (∃ e, (body ← get_object w S3_BUCKET S3_FILE_KEY; read_csv w body) = Raise e) ∧
   (∀ content, uploaded_file = Some content → ∃ e, read_csv w content = Raise e)) ∧
  ((load_data w uploaded_file).1 = None →
   ∃ e, last (load_data w uploaded_file).2
        = Some (error "Error loading data from S3: " e)) ∧
  ((load_data w uploaded_file).1 ≠ None →
   ∃ text, last (load_data w uploaded_file).2 = Some (success text)).
Proof.
  unfold load_data, load_from_s3.
  destruct (body ← get_object w S3_BUCKET S3_FILE_KEY; read_csv w body)
    as [remote|e'] eqn:Er.
  - (* the remote source answers *)
    assert (Hno : ¬ ∃ e, Ok remote = Raise e) by (intros [? [=]]).
    destruct uploaded_file as [content|];
      [destruct (read_csv w content) as [data|e] eqn:Eu|]; simpl.
    + split_and!; [split; [done|tauto]|done|by eexists].
    + split_and!; [split; [done|tauto]|done|by eexists].
    + split_and!; [split; [done|tauto]|done|by eexists].
  - (* it does not *)
    destruct uploaded_file as [content|];
      [destruct (read_csv w content) as [data|e] eqn:Eu|]; simpl.
    + split_and!; [split; [done|]|done|by eexists].
      intros [_ H]. destruct (H content eq_refl) as [? Hr].
      rewrite Eu in Hr. done.
    + split_and!; [split; [|done]|by eexists|done].
      intros _. split; [by eexists|]. intros c [= <-]. by eexists.
    + split_and!; [split; [|done]|by eexists|done].
      intros _. split; [by eexists|]. by intros c [=].
Qed.

Lemma load_data_none_iff_no_source_witness :
  ∃ e, last (load_data offline (Some "not a table")).2
       = Some (error "Error loading data from S3: " e).
Proof.
  apply (proj1 (proj2 (load_data_none_iff_no_source offline (Some "not a table")))).
  reflexivity.
Defined.

Lemma to_numeric_Ok (s : list cell) :
  Forall (λ v, is_str v = false) s → ∃ xs, to_numeric s = Ok xs.
Proof.
  unfold to_numeric. induction 1 as [|v s Hv Hs (xs & IH)]; simpl; [by eexists|].
  destruct v as [t|x]; [done|]. simpl. rewrite IH. simpl. by eexists.
Qed.

(** X18. A loaded dataset always reaches the tabs: when the first three
    categorical columns hold text only and the outcome column holds numbers,
    the page shows the overview for every pick of the user, never the
    placeholder and never an exception, with a student count of at most the
    number of raw rows. *)
Theorem page_shows_tabs_for_loaded_data (w : world) (multiselect : widget)
  (uploaded_file : option string) (data : DataFrame) (shown : list message)
  (ds : list num) :
  load_data w uploaded_file = (Some data, shown) →
  (∀ col s, col ∈ take 3 (categorical_cols data) → getitem data col = Ok s →
            Forall (λ v, is_str v = true) s) →
  numeric_column data "Exam_Score" = Ok ds →
  ∃ metrics,
    page w multiselect uploaded_file = Ok (Tabs metrics, shown) ∧
    (total_students metrics ≤ shape0 data)%nat ∧
    is_Some (average_score metrics) ∧
    is_Some (pass_rate_card metrics) ∧
    is_Some (score_range metrics).
Proof.
  intros Hload Htext Hnum.
  destruct (filter_selections_loop_keys multiselect data
              (take 3 (categorical_cols data))) with (acc := @nil (string * list cell))
    as (sel & Hsel & Hk); [|done|].
  { intros col Hc. apply (select_dtypes_names [object]).
    revert Hc. apply subseteq_take. }
  assert (Hkeys : ∀ col chosen, (col, chosen) ∈ sel → col ∈ column_names data).
  { intros col chosen Hin.
    assert (offered sel col) as Hoff.
    { unfold offered. apply list_elem_of_fmap. by exists (col, chosen). }
    apply Hk in Hoff as [Hoff|[Hoff _]].
    - unfold offered in Hoff. by apply elem_of_nil in Hoff.
    - apply (select_dtypes_names [object]). revert Hoff. apply subseteq_take. }
  pose proof (numeric_column_has_column _ _ _ Hnum) as Hhas.
  destruct data as [cols rs].
  set (fd := mkFrame cols (filter (λ r, row_selectedb cols sel r) rs)).
  assert (Hfd : ∃ fs, numeric_column fd "Exam_Score" = Ok fs) .
  { unfold numeric_column, getitem in Hnum |- *. simpl in *.
    destruct (col_pos "Exam_Score" cols) as [i|]; [|done]. simpl in *.
    apply to_numeric_cells in Hnum. apply to_numeric_Ok.
    rewrite Forall_fmap in Hnum |- *. rewrite Forall_forall in Hnum |- *.
    intros r [_ Hr]%list_elem_of_filter. by apply Hnum. }
  destruct Hfd as [fs Hfs].
  eexists. split_and!.
  - unfold page, sidebar. rewrite Hload.
    unfold build_filter_selections. rewrite Hsel. simpl.
    unfold apply_filters. rewrite filter_loop_rows by done. simpl.
    unfold tab1_metrics. fold fd.
    assert (has_column fd "Exam_Score" = true) as -> by exact Hhas.
    rewrite Hfs, Hnum. reflexivity.
  - simpl. unfold shape0. simpl. apply length_filter.
  - by eexists.
  - by eexists.
  - by eexists.
Qed.

Lemma page_shows_tabs_for_loaded_data_witness :
  ∃ metrics,
    page bucket_only nothing_chosen None
    = Ok (Tabs metrics, [success "Successfully loaded data from S3!"]) ∧
    (total_students metrics ≤ shape0 students)%nat ∧
    is_Some (average_score metrics) ∧
    is_Some (pass_rate_card metrics) ∧
    is_Some (score_range metrics).
Proof.
  apply (page_shows_tabs_for_loaded_data bucket_only nothing_chosen None
           students _ [Fin 50; Fin 70; Fin 90]).
  - reflexivity.
  - intros col s Hcol. vm_compute in Hcol.
    repeat (apply elem_of_cons in Hcol as [-> |Hcol];
            [intros [= <-]; repeat constructor|]).
    by apply elem_of_nil in Hcol.
  - reflexivity.
Defined.

(** ** Category counts *)

Example category_counts_students :
  category_counts insertion_sort
    (Str <$> ["Needs Improvement (<60)"; "Good (70-79)"; "Excellent (90-100)";
              "Good (70-79)"])
  = [(Str "Excellent (90-100)", 1%nat); (Str "Good (70-79)", 2%nat);
     (Str "Needs Improvement (<60)", 1%nat)].
Proof. vm_compute. reflexivity. Qed.

Lemma categorize_performance_in_order (v : cell) (band : string) :
  categorize_performance v = Ok band → band ∈ order.
Proof.
  destruct v as [a|x]; [done|]. rewrite categorize_performance_num.
  intros [= <-].
  destruct (ge_scalar 90 x), (ge_scalar 80 x), (ge_scalar 70 x),
    (ge_scalar 60 x); unfold order; set_solver.
Qed.

Lemma position_lookup (a : string) (l : list string) (i : nat) :
  position a l = Some i → l !! i = Some a.
Proof.
  revert i. induction l as [|c l IH]; intros i; simpl; [done|].
  case_bool_decide; [by intros [= <-]; subst|].
  destruct (position a l) as [j|]; [|done]. intros [= <-]. by apply IH.
Qed.

Lemma position_is_Some (a : string) (l : list string) :
  a ∈ l → is_Some (position a l).
Proof.
  induction l as [|c l IH]; simpl; [by intros ?%elem_of_nil|].
  intros Hin. case_bool_decide; [by eexists|].
  apply elem_of_cons in Hin as [-> |Hin]; [done|].
  destruct (IH Hin) as [i ->]. by eexists.
Qed.

Lemma count_value_pos (s : list cell) (a : string) :
  (0 < count_value s (Str a))%nat ↔ Str a ∈ s.
Proof.
  unfold count_value. rewrite filter_length_pos. split.
  - intros (w & Hw & Heq). apply Is_true_true in Heq.
    destruct w as [b|x]; [|done]. simpl in Heq.
    apply bool_decide_eq_true in Heq. by subst.
  - intros Hin. exists (Str a). split; [done|].
    apply Is_true_true, cell_eqb_refl.
Qed.

Lemma unique_NoDup (s : list cell) : NoDup (unique s).
Proof.
  destruct (unique_acc_spec s []) as (Hs & _ & _); [constructor|].
  fold (unique s) in Hs. induction Hs as [|x l Hl IH Hx]; constructor; [|done].
  intros Hin. rewrite Forall_forall in Hx. specialize (Hx x Hin).
  by rewrite cell_eqb_refl in Hx.
Qed.

Lemma unique_text_elem (s : list cell) (a : string) :
  Str a ∈ unique s ↔ Str a ∈ s.
Proof.
  split; [apply unique_subset|]. intros Hin.
  destruct (unique_acc_spec s []) as (_ & Hall & _); [constructor|].
  destruct (Hall (Str a) (or_intror Hin)) as (w & Hw & Heq).
  destruct w as [b|x]; [|done]. simpl in Heq.
  apply bool_decide_eq_true in Heq. by subst.
Qed.

Lemma NoDup_omap {A B} (f : A → option B) (l : list A) :
  (∀ a b y, f a = Some y → f b = Some y → a = b) →
  NoDup l → NoDup (omap f l).
Proof.
  intros Hinj. induction 1 as [|a l Ha Hl IH]; [constructor|].
  simpl. destruct (f a) as [y|] eqn:E; [|done].
  constructor; [|done]. intros Hin.
  apply list_elem_of_omap in Hin as (b & Hb & Hfb).
  by rewrite (Hinj a b y E Hfb) in Ha.
Qed.

Lemma StronglySorted_omap {A B} (S : relation A) (R : relation B)
  (f : A → option B) (l : list A) :
  (∀ a b x y, f a = Some x → f b = Some y → S a b → R x y) →
  StronglySorted S l → StronglySorted R (omap f l).
Proof.
  intros Hcompat. induction 1 as [|a l Hl IH Ha]; [constructor|].
  simpl. destruct (f a) as [x|] eqn:E; [|done].
  constructor; [done|]. apply Forall_forall.
  intros y (b & Hb & Hfb)%list_elem_of_omap.
  rewrite Forall_forall in Ha. by eapply Hcompat; [..|apply Ha].
Qed.

Lemma order_sorted_by_code :
  StronglySorted
    (λ a b, num_le (category_code order (Str a)) (category_code order (Str b)))
    order.
Proof.
  unfold order. repeat (constructor; [|repeat constructor; by vm_compute]).
  constructor.
Qed.

(** X19. The table of the pie chart lists the bands that occur among the
    students in the order of the list [order], from "Excellent" to "Needs
    Improvement", each with the number of students in it, whatever the counts
    are and whichever sorting algorithm [sort_values] runs. *)
Theorem category_counts_in_band_order (kind : sort_kind) (scores : list cell)
  (bands : list string) :
  sorts kind →
  mapM categorize_performance scores = Ok bands →
  category_counts kind (Str <$> bands)
  = omap (λ band,
            if (count_value (Str <$> bands) (Str band) =? 0)%nat then None
            else Some (Str band, count_value (Str <$> bands) (Str band)))
         order.
Proof.
  intros Hkind Hbands.
  set (labels := Str <$> bands).
  assert (Hlabels : ∀ v, v ∈ labels → ∃ a, v = Str a ∧ a ∈ order).
  { intros v (a & -> & Ha)%list_elem_of_fmap. exists a. split; [done|].
    apply mapM_res_Forall2 in Hbands.
    apply list_elem_of_lookup in Ha as [i Hi].
    destruct (Forall2_lookup_r _ _ _ _ _ Hbands Hi) as (x & _ & Hx).
    by eapply categorize_performance_in_order. }
  set (f := λ band,
         if (count_value labels (Str band) =? 0)%nat then None
         else Some (Str band, count_value labels (Str band))).
  set (base := (λ v, (v, count_value labels v))
                 <$> filter (λ v, ¬ missing v) (unique labels)).
  set (code := λ r : cell * nat, category_code order r.1).
  assert (Hbase : ∀ x, x ∈ base ↔ ∃ a, a ∈ order ∧ Str a ∈ labels ∧
                                      x = (Str a, count_value labels (Str a))).
  { intros x. unfold base. rewrite list_elem_of_fmap. split.
    - intros (v & -> & [_ Hv]%list_elem_of_filter).
      apply unique_subset in Hv as Hin.
      destruct (Hlabels v Hin) as (a & -> & Ha). by exists a.
    - intros (a & Ha & Hin & ->). exists (Str a). split; [done|].
      apply list_elem_of_filter. split; [by cbv|]. by apply unique_text_elem. }
  assert (Hexp : ∀ x, x ∈ omap f order ↔ x ∈ base).
  { intros x. rewrite Hbase, list_elem_of_omap. unfold f. split.
    - intros (a & Ha & Hf).
      destruct (Nat.eqb_spec (count_value labels (Str a)) 0) as [|Hn]; [done|].
      injection Hf as <-. exists a. split_and!; [done| |done].
      apply count_value_pos. lia.
    - intros (a & Ha & Hin & ->). exists a. split; [done|].
      apply count_value_pos in Hin.
      destruct (Nat.eqb_spec (count_value labels (Str a)) 0) as [|Hn]; [lia|done]. }
  assert (Hperm : category_counts kind labels ≡ₚ omap f order).
  { unfold category_counts, value_counts. rewrite !sort_values_perm by done.
    fold base. symmetry. apply NoDup_Permutation; [| |exact Hexp].
    - apply NoDup_omap; [|by vm_compute; repeat constructor; set_solver].
      unfold f. intros a b y Ha Hb.
      destruct (count_value labels (Str a) =? 0)%nat; [done|].
      destruct (count_value labels (Str b) =? 0)%nat; [done|]. congruence.
    - unfold base. apply NoDup_fmap_2_strong; [by intros ?? _ _ [=]|].
      apply NoDup_filter, unique_NoDup. }
  assert (Hcoded : ∀ x, x ∈ base → ∃ a i, x.1 = Str a ∧ a ∈ order ∧
                         position a order = Some i).
  { intros x (a & Ha & _ & ->)%Hbase.
    destruct (position_is_Some a order Ha) as [i Hi]. by exists a, i. }
  apply StronglySorted_unique_strong
    with (R := λ x y : cell * nat, num_le (code x) (code y)).
  - intros x1 x2 Hx1 Hx2 H12 H21.
    rewrite Hperm in Hx1. apply Hexp, Hbase in Hx1 as (a1 & Ha1 & _ & ->).
    apply Hexp, Hbase in Hx2 as (a2 & Ha2 & _ & ->).
    unfold code, category_code in H12, H21. cbn [fst] in H12, H21.
    destruct (position a1 order) as [i1|] eqn:E1; [|done].
    destruct (position a2 order) as [i2|] eqn:E2; [|by destruct H12].
    unfold num_le, Qle in H12, H21. cbn [inject_Z Qnum Qden] in H12, H21.
    assert (i1 = i2) as -> by lia.
    apply position_lookup in E1, E2. by simplify_eq.
  - assert (Forall (λ r : cell * nat, ¬ is_nan (code r))
              (category_counts kind labels)) as Hall.
    { rewrite Hperm. apply Forall_forall. intros x Hx%Hexp.
      destruct (Hcoded x Hx) as (a & i & Hxa & _ & Hi).
      unfold code, category_code. rewrite Hxa, Hi. by cbv. }
    rewrite <- (filter_all _ _ Hall). unfold category_counts.
    apply (sort_values_filter_sorted code kind Hkind
             (λ r : cell * nat, ¬ is_nan (code r)) true).
    intros r Hr Heq. rewrite Heq in Hr. by apply Hr.
  - apply (StronglySorted_omap
             (λ a b, num_le (category_code order (Str a))
                            (category_code order (Str b)))
             _ f order); [|exact order_sorted_by_code].
    unfold f. intros a b x y Ha Hb.
    destruct (count_value labels (Str a) =? 0)%nat; [done|].
    destruct (count_value labels (Str b) =? 0)%nat; [done|].
    injection Ha as <-. by injection Hb as <-.
  - exact Hperm.
Qed.

Lemma category_counts_in_band_order_witness :
  category_counts insertion_sort
    (Str <$> ["Needs Improvement (<60)"; "Good (70-79)"; "Excellent (90-100)"])
  = omap (λ band,
            if (count_value
                  (Str <$> ["Needs Improvement (<60)"; "Good (70-79)";
                            "Excellent (90-100)"]) (Str band) =? 0)%nat
            then None
            else Some (Str band,
                       count_value
                         (Str <$> ["Needs Improvement (<60)"; "Good (70-79)";
                                   "Excellent (90-100)"]) (Str band)))
         order.
Proof.
  apply (category_counts_in_band_order insertion_sort
           [int_cell 50; int_cell 70; int_cell 90]).
  - exact insertion_sort_sorts.
  - reflexivity.
Defined.

(** ** Tab 4 *)

Lemma mapM_res_Raise {A B} (f : A → res B) (l : list A) (e : exn) :
  mapM f l = Raise e → ∃ x, x ∈ l ∧ f x = Raise e.
Proof.
  induction l as [|x l IH]; simpl; [done|].
  destruct (f x) as [y|e'] eqn:Ex; simpl.
  - destruct (mapM f l) as [k|e'']; simpl; [done|].
    intros [= ->]. destruct IH as (x' & Hx' & Hf); [done|].
    exists x'. split; [by right|done].
  - intros [= ->]. exists x. split; [by left|done].
Qed.

Lemma numeric_column_Raise (df : DataFrame) (col : string) (e : exn) :
  numeric_column df col = Raise e → e = KeyError col ∨ e = TypeError.
Proof.
  unfold numeric_column, getitem.
  destruct (col_pos col (columns df)) as [i|]; simpl; [|intros [= <-]; by left].
  intros H. right. unfold to_numeric in H.
  apply mapM_res_Raise in H as ([a|x] & _ & Hx); [|done].
  by injection Hx.
Qed.

(** X20. Tab 4 depends on a name that only tab 3 binds: on a frame without an
    [Exam_Score] column, and on no other frame, it raises [NameError]. When it
    does return, the correlation matrix is computed exactly when there are at
    least two numerical factors, and the multi-factor chart is drawn exactly
    when there is also a categorical column. *)
Theorem tab4_raises_name_error_without_exam_score (fd : DataFrame)
  (cats : list string) :
  (tab4 fd cats = Raise NameError ↔ has_column fd "Exam_Score" = false) ∧
  (∀ view, tab4 fd cats = Ok view →
     (is_Some (matrix view) ↔ (1 < length (numerical_cols fd))%nat) ∧
     (multi_factor_chart view = true
      ↔ (1 < length (numerical_cols fd))%nat ∧ cats ≠ [])).
Proof.
  unfold tab4, tab3_numerical_cols.
  destruct (has_column fd "Exam_Score") eqn:Ehas.
  - destruct (Nat.ltb_spec 1 (length (numerical_cols fd))) as [Hlt|Hge].
    + split.
      * split; [|done]. destruct (corr_matrix fd) as [M|e] eqn:EM; [done|].
        simpl. intros [= ->]. unfold corr_matrix in EM.
        destruct (mapM (numeric_column fd) _) as [cols|e] eqn:Ecols; [done|].
        injection EM as ->.
        apply mapM_res_Raise in Ecols as (col & _ & Hcol).
        by apply numeric_column_Raise in Hcol as [|].
      * intros view. destruct (corr_matrix fd) as [M|e]; [|done]. simpl.
        intros [= <-]. simpl. split; [split; [done|by eexists]|].
        destruct cats; simpl; split; try done; by intros [_ ?].
    + split; [done|]. intros view [= <-]. simpl. split.
      * split; [by intros [? [=]]|lia].
      * split; [done|lia].
  - split; [done|]. by intros view.
Qed.

Example tab4_on_gender_only :
  tab4 (mkFrame [("Gender", object)] [mkRow 0 [Str "Female"]]) ["Gender"]
  = Raise NameError.
Proof. reflexivity. Qed.

Lemma unique_lists_each_value_once_witness :
  ∃ w, w ∈ unique [Str "a"; Num NaN; Str "a"; Num NaN] ∧ cell_same (Num NaN) w.
Proof.
  apply (proj1 (proj2 (unique_lists_each_value_once
                         [Str "a"; Num NaN; Str "a"; Num NaN])) (Num NaN)).
  right. by left.
Defined.

Lemma tab4_raises_name_error_without_exam_score_witness :
  (is_Some (matrix (mkRelationships false None
      [info "Not enough numerical or categorical variables for multi-factor analysis.";
       info "Not enough numerical variables for correlation analysis."]))
   ↔ (1 < length (numerical_cols students))%nat) ∧
  (multi_factor_chart (mkRelationships false None
      [info "Not enough numerical or categorical variables for multi-factor analysis.";
       info "Not enough numerical variables for correlation analysis."]) = true
   ↔ (1 < length (numerical_cols students))%nat ∧ ["Gender"; "School_Type"] ≠ []).
Proof.
  apply (proj2 (tab4_raises_name_error_without_exam_score students
                  ["Gender"; "School_Type"])).
  reflexivity.
Defined.

(** ** Averages per category and the most common value *)

Lemma sort_values_all_keyed_sorted {A} (by_ : A → num) (kind : sort_kind)
  (ascending : bool) (df : list A) :
  sorts kind →
  StronglySorted
    (λ a b, if ascending then num_le (by_ a) (by_ b) else num_le (by_ b) (by_ a))
    (filter (λ a, ¬ is_nan (by_ a)) (sort_values kind by_ ascending df)).
Proof.
  intros Hkind.
  apply (sort_values_filter_sorted by_ kind Hkind (λ a, ¬ is_nan (by_ a))).
  intros a Ha Heq. rewrite Heq in Ha. by apply Ha.
Qed.

(** X21. The table of averages per category has one row for each distinct
    category present in the column, a missing category left out; a row holds
    the mean and the number of the scores of its group; and the rows with a
    mean come in descending order of it. *)
Theorem summary_df_one_row_per_category (kind : sort_kind) (fd : DataFrame)
  (cat : string) (cats : list cell) (scores : list num) :
  sorts kind →
  getitem fd cat = Ok cats →
  numeric_column fd "Exam_Score" = Ok scores →
  ∃ table,
    summary_df kind fd cat = Ok table ∧
    table.*1.*1 ≡ₚ filter (λ v, ¬ missing v) (unique cats) ∧
    (∀ k m n, (k, m, n) ∈ table →
       m = mean (group_scores cats scores k) ∧
       n = length (finite (group_scores cats scores k)) ∧
       (m = NaN ↔ n = 0%nat)) ∧
    StronglySorted (λ a b : summary_row, num_le b.1.2 a.1.2)
      (filter (λ r : summary_row, ¬ is_nan r.1.2) table).
Proof.
  intros Hkind Hcats Hscores. unfold summary_df. rewrite Hcats, Hscores. simpl.
  eexists. split; [reflexivity|].
  set (base := (λ k, let g := group_scores cats scores k in
                     (k, mean g, length (finite g))) <$> group_keys cats).
  assert (Hperm : sort_values kind (λ r : summary_row, r.1.2) false base ≡ₚ base).
  { by apply sort_values_perm. }
  split_and!.
  - rewrite Hperm.
    assert (base.*1.*1 = group_keys cats) as ->.
    { unfold base. rewrite <- !list_fmap_compose.
      rewrite <- (list_fmap_id (group_keys cats)) at 2.
      by apply list_fmap_ext. }
    unfold group_keys. apply merge_sort_Permutation.
  - intros k m n Hin. rewrite Hperm in Hin.
    apply list_elem_of_fmap in Hin as (k' & [= -> -> ->] & _).
    split_and!; [done|done|]. unfold mean.
    destruct (finite (group_scores cats scores k')); simpl; split; done.
  - by apply (sort_values_all_keyed_sorted (λ r : summary_row, r.1.2) kind false).
Qed.

Lemma summary_df_one_row_per_category_witness :
  ∃ table,
    summary_df insertion_sort students "Gender" = Ok table ∧
    table.*1.*1 ≡ₚ filter (λ v, ¬ missing v)
                     (unique [Str "Female"; Str "Male"; Str "Female"]) ∧
    (∀ k m n, (k, m, n) ∈ table →
       m = mean (group_scores [Str "Female"; Str "Male"; Str "Female"]
                   [Fin 50; Fin 70; Fin 90] k) ∧
       n = length (finite (group_scores [Str "Female"; Str "Male"; Str "Female"]
                             [Fin 50; Fin 70; Fin 90] k)) ∧
       (m = NaN ↔ n = 0%nat)) ∧
    StronglySorted (λ a b : summary_row, num_le b.1.2 a.1.2)
      (filter (λ r : summary_row, ¬ is_nan r.1.2) table).
Proof.
  apply (summary_df_one_row_per_category insertion_sort students "Gender").
  - exact insertion_sort_sorts.
  - reflexivity.
  - reflexivity.
Defined.

Lemma count_value_same (s : list cell) (v w : cell) :
  cell_same v w → count_value s v = count_value s w.
Proof.
  intros Hvw. unfold count_value. f_equal. apply list_filter_iff. intros x.
  rewrite !Is_true_true, !cell_eqb_same. split; intros Hx.
  - by eapply cell_same_trans.
  - eapply cell_same_trans; [exact Hx|].
    apply cell_eqb_same. rewrite <- (cell_eqb_same v w) in Hvw.
    destruct v as [a|[a|]], w as [b|[b|]]; simpl in *; try done.
    + apply bool_decide_eq_true in Hvw. by apply bool_decide_eq_true.
    + apply Qeq_bool_iff in Hvw. apply Qeq_bool_iff. by symmetry.
Qed.

(** X22. The most common value of a column is an entry of it that is not
    missing and occurs at least as often as every other such entry; there is
    none exactly when the column has no entry other than missing ones. *)
Theorem most_common_has_the_highest_count (kind : sort_kind) (s : list cell) :
  sorts kind →
  (∀ v, most_common kind s = Some v →
     v ∈ s ∧ missing v = false ∧
     ∀ w, w ∈ s → missing w = false →
          (count_value s w ≤ count_value s v)%nat) ∧
  (most_common kind s = None ↔ ∀ w, w ∈ s → missing w = true).
Proof.
  intros Hkind. unfold most_common.
  set (base := (λ v, (v, count_value s v)) <$> filter (λ v, ¬ missing v) (unique s)).
  set (key := λ r : cell * nat, Fin (inject_Z (Z.of_nat r.2))).
  assert (Hperm : value_counts kind s ≡ₚ base) by by apply sort_values_perm.
  assert (Hsorted : StronglySorted (λ a b : cell * nat, (b.2 ≤ a.2)%nat)
                      (value_counts kind s)).
  { pose proof (sort_values_all_keyed_sorted key kind false base Hkind) as Hs.
    rewrite filter_all in Hs by (apply Forall_forall; intros a _; cbv; tauto).
    eapply StronglySorted_weaken; [|exact Hs]. simpl.
    intros a b Hab. unfold Qle in Hab. simpl in Hab. lia. }
  assert (Hbase : ∀ v n, (v, n) ∈ base ↔
                         v ∈ unique s ∧ missing v = false ∧ n = count_value s v).
  { intros v n. unfold base. rewrite list_elem_of_fmap. split.
    - intros (v' & [= -> ->] & [Hm Hv]%list_elem_of_filter).
      split_and!; [done| |done]. destruct (missing v'); [|done].
      by destruct Hm.
    - intros (Hv & Hm & ->). exists v. split; [done|].
      apply list_elem_of_filter. split; [rewrite Hm; cbv; tauto|done]. }
  split.
  - intros v Hv. destruct (value_counts kind s) as [|[v' n] rest] eqn:E; [done|].
    injection Hv as ->.
    assert ((v, n) ∈ base) as Hin by (rewrite <- Hperm; by left).
    apply Hbase in Hin as (Hu & Hm & ->).
    split_and!; [by apply unique_subset|done|].
    intros w Hw Hmw.
    destruct (unique_acc_spec s []) as (_ & Hall & _); [constructor|].
    destruct (Hall w (or_intror Hw)) as (w' & Hw' & Heq).
    fold (unique s) in Hw'. apply cell_eqb_same in Heq.
    rewrite (count_value_same s w w' Heq).
    assert ((w', count_value s w') ∈ base) as Hin.
    { apply Hbase. split_and!; [done| |done].
      destruct w as [a|[a|]], w' as [b|[b|]]; done. }
    rewrite <- Hperm in Hin.
    apply elem_of_cons in Hin as [[= -> _]|Hin]; [done|].
    apply StronglySorted_inv in Hsorted as [_ Hhead].
    rewrite Forall_forall in Hhead. by apply (Hhead _ Hin).
  - split.
    + intros Hnone w Hw. destruct (missing w) eqn:Hm; [done|].
      destruct (value_counts kind s) as [|[v' n] rest] eqn:E; [|done].
      destruct (unique_acc_spec s []) as (_ & Hall & _); [constructor|].
      destruct (Hall w (or_intror Hw)) as (w' & Hw' & Heq).
      fold (unique s) in Hw'. apply cell_eqb_same in Heq.
      assert ((w', count_value s w') ∈ base) as Hin.
      { apply Hbase. split_and!; [done| |done].
        destruct w as [a|[a|]], w' as [b|[b|]]; done. }
      rewrite <- Hperm in Hin. by apply elem_of_nil in Hin.
    + intros Hall. destruct (value_counts kind s) as [|[v' n] rest] eqn:E; [done|].
      assert ((v', n) ∈ base) as Hin by (rewrite <- Hperm; by left).
      apply Hbase in Hin as (Hu & Hm & _). apply unique_subset in Hu.
      by rewrite (Hall v' Hu) in Hm.
Qed.

Lemma most_common_has_the_highest_count_witness :
  Str "Female" ∈ [Str "Female"; Num NaN; Str "Male"; Str "Female"] ∧
  missing (Str "Female") = false ∧
  ∀ w, w ∈ [Str "Female"; Num NaN; Str "Male"; Str "Female"] →
       missing w = false →
       (count_value [Str "Female"; Num NaN; Str "Male"; Str "Female"] w
        ≤ count_value [Str "Female"; Num NaN; Str "Male"; Str "Female"]
            (Str "Female"))%nat.
Proof.
  apply (proj1 (most_common_has_the_highest_count insertion_sort
                  [Str "Female"; Num NaN; Str "Male"; Str "Female"]
                  insertion_sort_sorts) (Str "Female")).
  vm_compute. reflexivity.
Defined.

Lemma missing_iff (v : cell) : missing v = true ↔ v = Num NaN.
Proof. destruct v as [a|[q|]]; naive_solver. Qed.

Lemma NoDup_missing_count (l : list cell) :
  NoDup l →
  length (filter (λ v, missing v) l) = if existsb missing l then 1%nat else 0%nat.
Proof.
  induction 1 as [|y l Hy Hl IH]; [done|].
  rewrite filter_cons. simpl. destruct (missing y) eqn:Hm.
  - rewrite decide_True by done. simpl. f_equal.
    apply length_zero_iff_nil, filter_none, Forall_forall.
    intros z Hz Hmz. apply Is_true_true in Hmz.
    apply missing_iff in Hm, Hmz. by subst.
  - rewrite decide_False by (cbv; tauto). exact IH.
Qed.

Lemma existsb_missing_unique (s : list cell) :
  existsb missing (unique s) = existsb missing s.
Proof.
  apply eq_true_iff_eq. rewrite !existsb_exists. split.
  - intros (w & Hw & Hm). exists w. split; [|done].
    apply list_elem_of_In, unique_subset. by apply list_elem_of_In.
  - intros (v & Hv & Hm). apply list_elem_of_In in Hv.
    destruct (unique_acc_spec s []) as (_ & Hall & _); [constructor|].
    destruct (Hall v (or_intror Hv)) as (w & Hw & Hsame).
    exists w. split; [by apply list_elem_of_In|].
    apply missing_iff in Hm. subst v. by destruct w as [a|[q|]].
Qed.

(** X23. The two distinct-value counts of the script differ by the missing
    entry: the [len(unique())] that admits a column to the sidebar counts a
    missing entry as one more value, the [nunique()] of the column table and
    of the box-plot guard does not. *)
Theorem unique_counts_missing_and_nunique_does_not (s : list cell) :
  length (unique s)
  = (nunique s + if existsb missing s then 1 else 0)%nat.
Proof.
  unfold nunique.
  pose proof (filter_app_complement (λ v, ¬ missing v) (unique s)) as Hsplit.
  apply Permutation_length in Hsplit. rewrite length_app in Hsplit.
  rewrite <- Hsplit. f_equal.
  rewrite <- existsb_missing_unique, <- (NoDup_missing_count _ (unique_NoDup s)).
  f_equal. apply list_filter_iff. intros v. destruct (missing v); cbv; tauto.
Qed.
